(** * Weight loading of examples/stable_diffusion.py

    A shallow embedding of the part of [examples/stable_diffusion.py] that
    builds the model object and binds a checkpoint onto it:

    - the Python values the constructors of the file create (instances,
      named tuples, dicts, lists, tensors, [None], numbers, functions);
    - a heap of tensors: [Tensor.empty] allocates a cell, [w.assign]
      overwrites it, and two paths to one tensor share the cell;
    - the constructors of the text encoder ([Normalize], [Linear],
      [CLIPMLP], ..., [StableDiffusion]);
    - the loop of [__main__] that walks [dat['state_dict'].items()];
    - [UNetModel.__call__] and [StableDiffusion.__call__], with the state
      of the random generator passed explicitly and the exceptions of the
      callees passed on;
    - the forward passes of the autoencoder and of the text encoder over
      a tensor library taken as a parameter. *)

From Stdlib Require Import ZArith String Ascii List Bool Lia SpecFloat.
From stdpp Require Import base gmap strings list.

Set Warnings "-register-all".

Open Scope Z_scope.
Open Scope string_scope.

(** ** Exceptions and results *)

(** The exception classes that occur in the loop: the three named by its
    [except] clause, the one an [assert] raises, and [TypeError] for
    anything else a callee may raise. *)
Inductive exn : Type :=
| AttributeError
| KeyError
| IndexError
| TypeError
| AssertionError.

Inductive result (A : Type) : Type :=
| Ok (a : A)
| Raise (e : exn).
Arguments Ok {A} a.
Arguments Raise {A} e.

(** ** numpy arrays and the cast to float32 *)

Inductive dtype : Type := float16 | float32 | float64 | int32 | int64.

#[global] Instance dtype_eq_dec : EqDecision dtype.
Proof. solve_decision. Defined.

(** An element of an array: a binary floating-point number, in the
    representation of [SpecFloat], or an integer. *)
Inductive scalar : Type :=
| SFloat (f : spec_float)
| SInt (z : Z).

Record ndarray : Type := mk_ndarray {
  nd_shape : list Z;
  nd_dtype : dtype;
  nd_data : list scalar
}.

(** Rounding to binary32 (24 bits of precision, [emax = 128]), to nearest
    even; zeros, infinities and NaN keep their class. *)
Definition round_float32 (f : spec_float) : spec_float :=
  match f with
  | S754_finite s m e => binary_round 24 128 s m e
  | _ => f
  end.

Definition to_float32 (x : scalar) : scalar :=
  match x with
  | SFloat f => SFloat (round_float32 f)
  | SInt z => SFloat (binary_normalize 24 128 z 0 false)
  end.

(** [v.astype(np.float32)]: same shape, every element converted. *)
Definition astype_float32 (v : ndarray) : ndarray :=
  {| nd_shape := nd_shape v;
     nd_dtype := float32;
     nd_data := map to_float32 (nd_data v) |}.

(** A number of the binary32 format: a float whose mantissa and exponent
    fit 24 bits of precision and [emax = 128].  An integer is not one. *)
Definition is_float32 (x : scalar) : bool :=
  match x with
  | SFloat f => valid_binary 24 128 f
  | SInt _ => false
  end.

(** ** Tensors and the heap *)

Abbreviation loc := positive.

(** A tensor: its shape, the type of its elements and its buffer;
    [None] is the buffer of [Tensor.empty], allocated and not written. *)
Record Tensor : Type := mk_Tensor {
  t_shape : list Z;
  t_dtype : dtype;
  t_data : option (list scalar)
}.

Definition Tensor_placeholder (sh : list Z) : Tensor :=
  {| t_shape := sh; t_dtype := float32; t_data := None |}.

(** A tensor of 32-bit floats: its element type is float32 and its buffer,
    when it has one, holds numbers of the binary32 format only. *)
Definition holds_float32 (t : Tensor) : Prop :=
  t_dtype t = float32 /\
  forall data, t_data t = Some data -> Forall (fun x => is_float32 x = true) data.

#[global] Instance Tensor_inhabited : Inhabited Tensor :=
  populate (Tensor_placeholder []).

Abbreviation heap := (gmap loc Tensor).

(** Modelled from the spec: [Tensor.assign] of tinygrad/tensor.py, which is
    not among the sources.  Binding is "the act of copying a checkpoint
    tensor's values into a resolved leaf", "overwriting any placeholder
    allocation": the cell of the leaf takes the array's shape, element type
    and data. *)
Definition Tensor_of_ndarray (x : ndarray) : Tensor :=
  {| t_shape := nd_shape x; t_dtype := nd_dtype x; t_data := Some (nd_data x) |}.

Definition assign (l : loc) (x : ndarray) (h : heap) : heap :=
  <[l := Tensor_of_ndarray x]> h.

(** ** Python values of the model *)

Inductive pyobj : Type :=
| PNone
| PInt (z : Z)
| PFloat (f : spec_float)
| PFunction (name : string)
| PTensor (l : loc)
| PList (items : list pyobj)
| PDict (items : list (string * pyobj))
| PNamedTuple (cls : string) (fields : list (string * pyobj))
| PInstance (cls : string) (attrs : list (string * pyobj)).

(** Lookup by name in the attributes of an instance, the fields of a named
    tuple or the items of a dict (first match, names are unique there). *)
Fixpoint assoc (a : string) (items : list (string * pyobj)) : option pyobj :=
  match items with
  | [] => None
  | (b, o) :: rest => if String.eqb a b then Some o else assoc a rest
  end.

(** [getattr(o, a)]. *)
Definition getattr (o : pyobj) (a : string) : result pyobj :=
  match o with
  | PInstance _ attrs | PNamedTuple _ attrs =>
      match assoc a attrs with
      | Some c => Ok c
      | None => Raise AttributeError
      end
  | _ => Raise AttributeError
  end.

(** ** Paths *)

(** [key.split('.')]: the pieces between the dots; a string with no dot is
    one piece, and two dots in a row give an empty piece. *)
Fixpoint split_dot (s : string) : list string :=
  match s with
  | EmptyString => [EmptyString]
  | String c s' =>
      if Ascii.eqb c "."%char then EmptyString :: split_dot s'
      else match split_dot s' with
           | piece :: pieces => String c piece :: pieces
           | [] => [String c EmptyString]
           end
  end.

Definition is_digit (c : ascii) : bool :=
  let n := N_of_ascii c in ((48 <=? n) && (n <=? 57))%N.


Fixpoint all_chars (p : ascii -> bool) (s : string) : bool :=
  match s with
  | EmptyString => true
  | String c s' => p c && all_chars p s'
  end.

(** A non-negative integer: one or more decimal digits. *)
Definition is_numeral (s : string) : bool :=
  match s with
  | EmptyString => false
  | _ => all_chars is_digit s
  end.



Fixpoint decimal (acc : N) (s : string) : N :=
  match s with
  | EmptyString => acc
  | String c s' => decimal (acc * 10 + (N_of_ascii c - 48))%N s'
  end.

Inductive segment : Type :=
| Name (a : string)
| Index (i : nat).

Definition segment_of (piece : string) : segment :=
  if is_numeral piece then Index (N.to_nat (decimal 0 piece)) else Name piece.

(** ** The path resolver *)

Module Utils.

(** The ways a resolution fails, after section 4.1 of the spec: "not
    found" when a segment "does not exist as an attribute or is out of
    range as an index" (and, for a dict, as a key), "wrong kind" when "a
    segment expects a composite but finds a leaf, or vice versa". *)
Inductive failure : Type :=
| MissingAttribute
| MissingKey
| IndexOutOfRange
| WrongKind.

Inductive resolution : Type :=
| Resolved (o : pyobj)
| Failed (f : failure).

(** One step of navigation.  Instances have named children; a named tuple
    has named children that are also an ordered sequence; a dict has
    keyed children; a list is an ordered sequence.  Everything else is
    not a composite. *)
Definition child (o : pyobj) (seg : segment) : resolution :=
  match o, seg with
  | PInstance _ attrs, Name a =>
      match assoc a attrs with
      | Some c => Resolved c
      | None => Failed MissingAttribute
      end
  | PInstance _ _, Index _ => Failed MissingAttribute
  | PNamedTuple _ fields, Name a =>
      match assoc a fields with
      | Some c => Resolved c
      | None => Failed MissingAttribute
      end
  | PNamedTuple _ fields, Index i =>
      match fields !! i with
      | Some (_, c) => Resolved c
      | None => Failed IndexOutOfRange
      end
  | PDict items, Name a =>
      match assoc a items with
      | Some c => Resolved c
      | None => Failed MissingKey
      end
  | PDict _, Index _ => Failed MissingKey
  | PList items, Index i =>
      match items !! i with
      | Some c => Resolved c
      | None => Failed IndexOutOfRange
      end
  | PList _, Name _ => Failed MissingAttribute
  | _, _ => Failed WrongKind
  end.

(** Navigation through all the segments; the node reached has to be a
    leaf. *)
Fixpoint resolve (o : pyobj) (segs : list segment) : resolution :=
  match segs with
  | [] =>
      match o with
      | PTensor _ => Resolved o
      | _ => Failed WrongKind
      end
  | seg :: rest =>
      match child o seg with
      | Resolved c => resolve c rest
      | Failed f => Failed f
      end
  end.

(** A failure reaches the caller as one of the exceptions its [except]
    clause names: a missing attribute as [AttributeError], a missing key
    as [KeyError], an index out of range as [IndexError]; a node of the
    wrong kind lacks the attribute asked of it. *)
Definition exn_of_failure (f : failure) : exn :=
  match f with
  | MissingAttribute => AttributeError
  | MissingKey => KeyError
  | IndexOutOfRange => IndexError
  | WrongKind => AttributeError
  end.

(** Modelled from the spec: [get_child] of extra/utils.py, which is not
    among the sources.  It is the path resolver of section 4.1: "given the
    model tree root and a dotted/indexed path string, navigate through
    named attributes and sequence indices to locate the target leaf
    node"; it has no side effect. *)
Definition get_child (parent : pyobj) (key : string) : result pyobj :=
  match resolve parent (map segment_of (split_dot key)) with
  | Resolved o => Ok o
  | Failed f => Raise (exn_of_failure f)
  end.

End Utils.

(** ** The loop of [__main__] *)

(** A line of output of [print(f"{str(v.shape):30s}", w, k)]: the shape of
    the checkpoint tensor, the object found ([None] when the lookup
    failed) and the key. *)
Record line : Type := mk_line {
  ln_shape : list Z;
  ln_w : pyobj;
  ln_key : string
}.

(** What the loop changes: the heap of tensors and the lines printed. *)
Record state : Type := mk_state {
  st_heap : heap;
  st_out : list line
}.

(** How a run ends: it returns, or an exception leaves it. *)
Inductive outcome : Type :=
| Done (s : state)
| Aborted (e : exn) (s : state).

Definition final (o : outcome) : state :=
  match o with Done s | Aborted _ s => s end.

(** The classes of [except (AttributeError, KeyError, IndexError)]. *)
Definition caught (e : exn) : bool :=
  match e with
  | AttributeError | KeyError | IndexError => true
  | _ => false
  end.

Definition shape_eqb (a b : list Z) : bool := bool_decide (a = b).

Section Loader.

(** [get_child] is imported from extra.utils; the loop is written over
    any resolver. *)
Variable get_child : pyobj -> string -> result pyobj.
Variable model : pyobj.

(** <<
    try:
      w = get_child(model, k)
    except (AttributeError, KeyError, IndexError):
      w = None
    >> *)
Definition try_get_child (k : string) : result pyobj :=
  match get_child model k with
  | Ok w => Ok w
  | Raise e => if caught e then Ok PNone else Raise e
  end.

(** <<
    print(f"{str(v.shape):30s}", w, k)
    if w is not None:
      assert w.shape == v.shape
      w.assign(v.astype(np.float32))
    >>
    [w.shape] exists for a tensor only: no class of the file gives its
    instances a [shape]. *)
Definition loop_body (s : state) (kv : string * ndarray) : outcome :=
  let '(k, v) := kv in
  match try_get_child k with
  | Raise e => Aborted e s
  | Ok w =>
      let s1 := {| st_heap := st_heap s;
                   st_out := st_out s ++ [mk_line (nd_shape v) w k] |} in
      match w with
      | PNone => Done s1
      | PTensor l =>
          if shape_eqb (t_shape (st_heap s1 !!! l)) (nd_shape v)
          then Done {| st_heap := assign l (astype_float32 v) (st_heap s1);
                       st_out := st_out s1 |}
          else Aborted AssertionError s1
      | _ => Aborted AttributeError s1
      end
  end.

(** [for k,v in dat['state_dict'].items(): ...], the items in their
    stored order. *)
Fixpoint load_weights (items : list (string * ndarray)) (s : state) : outcome :=
  match items with
  | [] => Done s
  | kv :: rest =>
      match loop_body s kv with
      | Done s' => load_weights rest s'
      | Aborted e s' => Aborted e s'
      end
  end.

End Loader.

(** ** Construction of the model *)

(** The constructors allocate tensors one after the other: [next] is the
    first free cell. *)
Record alloc : Type := mk_alloc {
  next : loc;
  cells : heap
}.

Definition Init (A : Type) : Type := alloc -> A * alloc.

Definition init_ret {A : Type} (a : A) : Init A := fun st => (a, st).

Definition init_bind {A B : Type} (m : Init A) (k : A -> Init B) : Init B :=
  fun st => let '(a, st') := m st in k a st'.

Notation "x <~ m ;; k" := (init_bind m (fun x => k))
  (at level 100, m at next level, right associativity).

Fixpoint init_repeat {A : Type} (n : nat) (m : Init A) : Init (list A) :=
  match n with
  | O => init_ret []
  | S n' => x <~ m ;; xs <~ init_repeat n' m ;; init_ret (x :: xs)
  end.

(** Modelled from the spec: [Tensor.empty] of tinygrad/tensor.py, which is
    not among the sources.  "The model tree is constructed once (parameters
    allocated but uninitialized)": a fresh cell of the given shape with no
    data; its element type is taken to be float32, the type the loop casts
    every array to. *)
Definition Tensor_empty (sh : list Z) : Init pyobj :=
  fun st =>
    (PTensor (next st),
     {| next := Pos.succ (next st);
        cells := <[next st := Tensor_placeholder sh]> (cells st) |}).

(** [class Normalize], [__init__(self, in_channels, num_groups=32)]. *)
Definition Normalize (in_channels num_groups : Z) : Init pyobj :=
  weight <~ Tensor_empty [in_channels] ;;
  bias <~ Tensor_empty [in_channels] ;;
  init_ret (PInstance "Normalize"
    [("weight", weight); ("bias", bias); ("num_groups", PInt num_groups)]).

(** [class Linear], [__init__(self, in_features, out_features, bias=True)]. *)
Definition Linear (in_features out_features : Z) (bias : bool) : Init pyobj :=
  weight <~ Tensor_empty [out_features; in_features] ;;
  b <~ (if bias then Tensor_empty [out_features] else init_ret PNone) ;;
  init_ret (PInstance "Linear" [("weight", weight); ("bias", b)]).

(** [class CLIPMLP]. *)
Definition CLIPMLP : Init pyobj :=
  fc1 <~ Linear 768 3072 true ;;
  fc2 <~ Linear 3072 768 true ;;
  init_ret (PInstance "CLIPMLP" [("fc1", fc1); ("fc2", fc2)]).

(** [class CLIPAttention]: [head_dim = 768 // 12], and
    [scale = head_dim**-0.5] is the float 0.125. *)
Definition CLIPAttention : Init pyobj :=
  let embed_dim := 768 in
  let num_heads := 12 in
  let head_dim := embed_dim / num_heads in
  let scale := binary_normalize 53 1024 1 (-3) false in
  k_proj <~ Linear embed_dim embed_dim true ;;
  v_proj <~ Linear embed_dim embed_dim true ;;
  q_proj <~ Linear embed_dim embed_dim true ;;
  out_proj <~ Linear embed_dim embed_dim true ;;
  init_ret (PInstance "CLIPAttention"
    [("embed_dim", PInt embed_dim); ("num_heads", PInt num_heads);
     ("head_dim", PInt head_dim); ("scale", PFloat scale);
     ("k_proj", k_proj); ("v_proj", v_proj); ("q_proj", q_proj);
     ("out_proj", out_proj)]).

(** [class CLIPEncoderLayer]. *)
Definition CLIPEncoderLayer : Init pyobj :=
  self_attn <~ CLIPAttention ;;
  layer_norm1 <~ Normalize 768 1 ;;
  mlp <~ CLIPMLP ;;
  layer_norm2 <~ Normalize 768 1 ;;
  init_ret (PInstance "CLIPEncoderLayer"
    [("self_attn", self_attn); ("layer_norm1", layer_norm1);
     ("mlp", mlp); ("layer_norm2", layer_norm2)]).

(** [class CLIPEncoder]: [[CLIPEncoderLayer() for i in range(12)]]. *)
Definition CLIPEncoder : Init pyobj :=
  layers <~ init_repeat 12 CLIPEncoderLayer ;;
  init_ret (PInstance "CLIPEncoder" [("layers", PList layers)]).

(** [class CLIPTextEmbeddings]. *)
Definition CLIPTextEmbeddings : Init pyobj :=
  position_ids <~ Tensor_empty [1; 77] ;;
  token <~ Tensor_empty [49408; 768] ;;
  position <~ Tensor_empty [77; 768] ;;
  init_ret (PInstance "CLIPTextEmbeddings"
    [("position_ids", position_ids);
     ("token_embedding", PDict [("weight", token)]);
     ("position_embedding", PDict [("weight", position)])]).

(** [class CLIPTextTransformer]. *)
Definition CLIPTextTransformer : Init pyobj :=
  embeddings <~ CLIPTextEmbeddings ;;
  encoder <~ CLIPEncoder ;;
  final_layer_norm <~ Normalize 768 1 ;;
  init_ret (PInstance "CLIPTextTransformer"
    [("embeddings", embeddings); ("encoder", encoder);
     ("final_layer_norm", final_layer_norm)]).

(** [class StableDiffusion]: the assignments of [self.model] and
    [self.first_stage_model] are commented out in [__init__]; the only
    attribute is [cond_stage_model]. *)
Definition StableDiffusion : Init pyobj :=
  text_model <~ CLIPTextTransformer ;;
  init_ret (PInstance "StableDiffusion"
    [("cond_stage_model",
      PNamedTuple "CondStageModel"
        [("transformer",
          PNamedTuple "Transformer" [("text_model", text_model)])])]).

(** [model = StableDiffusion()] at the start of [__main__]: the object and
    the heap of its tensors. *)
Definition fresh : alloc := {| next := 1%positive; cells := ∅ |}.

Definition main_model : pyobj := fst (StableDiffusion fresh).

Definition main_heap : heap := cells (snd (StableDiffusion fresh)).

(** ** The forward passes that draw random tensors *)

(** Calls that may raise, one after the other: the first exception ends
    the computation and is its result. *)
#[global] Instance result_bind : MBind result :=
  fun A B (k : A -> result B) (m : result A) =>
    match m with
    | Ok a => k a
    | Raise e => Raise e
    end.

Section Forward.

(** The tensors of a forward pass and the operations of the tensor library
    on them are those of tinygrad, taken as given; a call into the library
    or into a layer returns a tensor or raises.  [Tensor.uniform] reads and
    advances the state of numpy's generator, which is passed here. *)
Variable T : Type.
Variable rng : Type.
Variable uniform : list Z -> rng -> T * rng.
Variable dim0 : T -> result Z.
Variable cat : T -> T -> result T.

(** The members of the block lists of [UNetModel], as [run] tells them
    apart with [isinstance]: a [ResBlock] takes the embedding, a
    [SpatialTransformer] the context, anything else only [x]. *)
Inductive block : Type :=
| ResBlock (call : T -> T -> result T)
| SpatialTransformer (call : T -> option T -> result T)
| Layer (call : T -> result T).

Record UNetModel : Type := mk_UNetModel {
  time_embed : list (T -> result T);
  input_blocks : list (list block);
  middle_block : list block;
  output_blocks : list (list block);
  out : list (T -> result T)
}.

(** [x.sequential(ll)]: the callables of [ll] applied in order. *)
Definition sequential (x : T) (ll : list (T -> result T)) : result T :=
  fold_left (fun y f => y ≫= f) ll (Ok x).

(** The local function [run] of [UNetModel.__call__]. *)
Definition run (emb : T) (context : option T) (x : T) (bb : block) : result T :=
  match bb with
  | ResBlock call => call x emb
  | SpatialTransformer call => call x context
  | Layer call => call x
  end.

(** [for bb in b: x = run(x, bb)]. *)
Definition run_blocks (emb : T) (context : option T) (x : T) (b : list block)
    : result T :=
  fold_left (fun y bb => y ≫= fun x => run emb context x bb) b (Ok x).

(** [saved_inputs.pop()]: the last element, or [IndexError] on an empty
    list. *)
Definition pop (l : list T) : result (T * list T) :=
  match rev l with
  | [] => Raise IndexError
  | y :: r => Ok (y, rev r)
  end.

(** The loop over [self.input_blocks]; [saved_inputs.append(x)] after each
    list of blocks. *)
Fixpoint run_input_blocks (emb : T) (context : option T)
    (bs : list (list block)) (x : T) (saved_inputs : list T)
    : result (T * list T) :=
  match bs with
  | [] => Ok (x, saved_inputs)
  | b :: rest =>
      x' ← run_blocks emb context x b;
      run_input_blocks emb context rest x' (saved_inputs ++ [x'])
  end.

(** The body of the loop over [self.output_blocks] for the list [b]:
    [x = x.cat(saved_inputs.pop(), dim=1)], then the blocks of [b]. *)
Definition run_output_block (emb : T) (context : option T) (b : list block)
    (x y : T) : result T :=
  z ← cat x y; run_blocks emb context z b.

(** The loop over [self.output_blocks]. *)
Fixpoint run_output_blocks (emb : T) (context : option T)
    (bs : list (list block)) (x : T) (saved_inputs : list T) : result T :=
  match bs with
  | [] => Ok x
  | b :: rest =>
      '(y, saved') ← pop saved_inputs;
      x' ← run_output_block emb context b x y;
      run_output_blocks emb context rest x' saved'
  end.

(** The body of [UNetModel.__call__] once [t_emb] is drawn (the [print]
    calls, which do not touch [x], are left out). *)
Definition UNetModel_forward (self : UNetModel) (t_emb x : T)
    (context : option T) : result T :=
  emb ← sequential t_emb (time_embed self);
  '(x1, saved_inputs) ← run_input_blocks emb context (input_blocks self) x [];
  x2 ← run_blocks emb context x1 (middle_block self);
  x3 ← run_output_blocks emb context (output_blocks self) x2 saved_inputs;
  sequential x3 (out self).


(** The layers [UNetModel.__init__] puts together; what each computes is
    the tensor library's business. *)
Variable Linear_call : Z -> Z -> T -> result T.
Variable silu : T -> result T.
Variable Conv2d_call : Z -> Z -> T -> result T.
Variable Normalize_call : Z -> T -> result T.
Variable ResBlock_call : Z -> Z -> Z -> T -> T -> result T.
Variable SpatialTransformer_call : Z -> Z -> Z -> Z -> T -> option T -> result T.
Variable Downsample_call : Z -> T -> result T.
Variable Upsample_call : Z -> T -> result T.

(** [UNetModel.__init__]. *)
Definition UNetModel_init : UNetModel :=
  let R c e o := ResBlock (ResBlock_call c e o) in
  let ST c d h dh := SpatialTransformer (SpatialTransformer_call c d h dh) in
  let D c := Layer (Downsample_call c) in
  let U c := Layer (Upsample_call c) in
  {| time_embed := [Linear_call 320 1280; silu; Linear_call 1280 1280];
     input_blocks :=
       [ [Layer (Conv2d_call 4 320)];
         [R 320 1280 320; ST 320 768 10 32];
         [R 320 1280 320; ST 320 768 10 32];
         [D 320];
         [R 320 1280 640; ST 640 768 10 64];
         [R 640 1280 640; ST 640 768 10 64];
         [D 640];
         [R 640 1280 1280; ST 1280 768 10 128];
         [R 1280 1280 1280; ST 1280 768 10 128];
         [D 1280];
         [R 1280 1280 1280];
         [R 1280 1280 1280] ];
     middle_block :=
       [R 1280 1280 1280; ST 1280 768 10 128; R 1280 1280 1280];
     output_blocks :=
       [ [R 2560 1280 1280];
         [R 2560 1280 1280];
         [R 2560 1280 1280; U 1280];
         [R 2560 1280 1280; ST 1280 768 10 128];
         [R 2560 1280 1280; ST 1280 768 10 128];
         [R 1920 1280 1280; ST 1280 768 10 128; U 1280];
         [R 1920 1280 640; ST 640 768 10 64];
         [R 1280 1280 640; ST 640 768 10 64];
         [R 960 1280 640; ST 640 768 10 64; U 640];
         [R 960 1280 320; ST 320 768 10 32];
         [R 640 1280 320; ST 320 768 10 32];
         [R 640 1280 320; ST 320 768 10 32] ];
     out := [Normalize_call 320; silu; Conv2d_call 320 4] |}.

(** Calling the object found at [self.model.diffusion_model]. *)
Variable call_object : pyobj -> T -> T -> rng -> result T * rng.

(** [StableDiffusion.__call__(self, x)]:
    <<
    context = Tensor.uniform(1, 77, 768)
    return self.model.diffusion_model(x, context)
    >> *)
Definition StableDiffusion_call (self : pyobj) (x : T) (g : rng) : result T * rng :=
  let '(context, g') := uniform [1; 77; 768] g in
  match getattr self "model" with
  | Raise e => (Raise e, g')
  | Ok m =>
      match getattr m "diffusion_model" with
      | Raise e => (Raise e, g')
      | Ok unet => call_object unet x context g'
      end
  end.

End Forward.

Arguments ResBlock {T} call.
Arguments SpatialTransformer {T} call.
Arguments Layer {T} call.

(** ** Reading a run *)

(** The exception that ended a run, if one did. *)
Definition status (o : outcome) : option exn :=
  match o with
  | Done _ => None
  | Aborted e _ => Some e
  end.

(** The line the loop prints for an item. *)
Definition printed (get_child : pyobj -> string -> result pyobj)
    (model : pyobj) (kv : string * ndarray) : line :=
  {| ln_shape := nd_shape (snd kv);
     ln_w := match try_get_child get_child model (fst kv) with
             | Ok w => w
             | Raise _ => PNone
             end;
     ln_key := fst kv |}.

(** A line that is about no key of the checkpoint, as a summary of the
    whole pass would be. *)
Definition summary_line (items : list (string * ndarray)) (ln : line) : Prop :=
  forall kv, In kv items -> ln_key ln <> fst kv.

(** ** Sample checkpoints for the model of [__main__] *)

Module Samples.

Definition norm_weight : string :=
  "cond_stage_model.transformer.text_model.final_layer_norm.weight".

Definition norm_bias : string :=
  "cond_stage_model.transformer.text_model.final_layer_norm.bias".

Definition unet_weight : string := "model.diffusion_model.out.0.weight".


(** The float64 nearest to 0.1. *)
Definition tenth : scalar := SFloat (S754_finite false 7205759403792794 (-56)).

Definition vector (n : nat) (d : dtype) (x : scalar) : ndarray :=
  {| nd_shape := [Z.of_nat n]; nd_dtype := d; nd_data := repeat x n |}.

(** One item that binds and one whose key is not in the model. *)
Definition bound_and_skipped : list (string * ndarray) :=
  [(norm_weight, vector 768 float64 tenth);
   (unet_weight, vector 320 float32 (SInt 0))].

(** An item of the wrong shape, then one that would bind. *)
Definition mismatch_first : list (string * ndarray) :=
  [(norm_weight, vector 1024 float64 tenth);
   (norm_bias, vector 768 float64 tenth)].

Definition main_state : state := {| st_heap := main_heap; st_out := [] |}.

End Samples.

(** ** A generator for the examples *)

Module Scalars.

(** A tensor is one integer and the generator a linear congruential
    one. *)
Definition uniform (sh : list Z) (g : Z) : Z * Z :=
  let g' := (1103515245 * g + 12345) mod 2147483648 in (g', g').


End Scalars.

(** ** More of the loop: which items let the pass go on *)

(** An item lets the pass go on when its lookup gives [None] (also through
    the [except] clause) or a tensor of the shape of its array, read in the
    heap [h]. *)
Definition passes (get_child : pyobj -> string -> result pyobj)
    (model : pyobj) (h : heap) (kv : string * ndarray) : bool :=
  match try_get_child get_child model (fst kv) with
  | Ok PNone => true
  | Ok (PTensor l) => shape_eqb (t_shape (h !!! l)) (nd_shape (snd kv))
  | _ => false
  end.

(** The tensors the keys of a checkpoint resolve to, in its order. *)
Fixpoint targets (get_child : pyobj -> string -> result pyobj)
    (model : pyobj) (items : list (string * ndarray)) : list loc :=
  match items with
  | [] => []
  | (k, _) :: rest =>
      match get_child model k with
      | Ok (PTensor l) => l :: targets get_child model rest
      | _ => targets get_child model rest
      end
  end.

(** ** The tensors of an object *)

(** The tensors reachable in an object, in the order of its attributes,
    fields, items and elements. *)
Fixpoint leaves (o : pyobj) : list loc :=
  match o with
  | PTensor l => [l]
  | PList items => flat_map leaves items
  | PDict items | PNamedTuple _ items | PInstance _ items =>
      flat_map (fun p => leaves (snd p)) items
  | _ => []
  end.

(** The cells from [p] up to [q], [q] left out. *)
Definition cells_between (p q : loc) : list loc :=
  map Pos.of_nat (seq (Pos.to_nat p) (Pos.to_nat q - Pos.to_nat p)).

(** What a constructor does to the allocator: it only moves [next] up;
    the tensors of its result are [before] followed by the cells it
    allocated, each once and in order; cells outside those keep their
    content; the new cells are placeholders. *)
Definition allocates {A : Type} (tensors : A -> list loc) (before : list loc)
    (m : Init A) : Prop :=
  forall st,
    (next st <= next (snd (m st)))%positive /\
    tensors (fst (m st)) =
      (before ++ cells_between (next st) (next (snd (m st))))%list /\
    (forall l, (l < next st)%positive \/ (next (snd (m st)) <= l)%positive ->
               cells (snd (m st)) !! l = cells st !! l) /\
    (forall l, (next st <= l)%positive -> (l < next (snd (m st)))%positive ->
               exists sh, cells (snd (m st)) !! l = Some (Tensor_placeholder sh)).

(** ** The members of the block lists, by class *)


Definition is_SpatialTransformer {T : Type} (bb : block T) : bool :=
  match bb with SpatialTransformer _ => true | _ => false end.

(** All the members of a model's block lists. *)
Definition blocks_of {T : Type} (self : UNetModel T) : list (block T) :=
  concat (input_blocks T self) ++ middle_block T self ++ concat (output_blocks T self).

(** The tensors [saved_inputs] receives: [x] after each list of input
    blocks, in their order, when they all return. *)
Fixpoint outputs_after (T : Type) (emb : T) (context : option T)
    (bs : list (list (block T))) (x : T) : result (list T) :=
  match bs with
  | [] => Ok []
  | b :: rest =>
      x' ← run_blocks T emb context x b;
      l ← outputs_after T emb context rest x';
      Ok (x' :: l)
  end.

(** ** The text encoder's embeddings *)

(** The float64 numbers 0.0 and 1.0 of [np.zeros] and of the assignment
    [= 1]. *)
Definition f64_zero : scalar := SFloat (S754_zero false).

Definition f64_one : scalar := SFloat (binary_normalize 53 1024 1 0 false).

(** [np.zeros((rows, cols))]. *)
Definition np_zeros (rows cols : nat) : list (list scalar) :=
  replicate rows (replicate cols f64_zero).

(** The position an integer index [x] denotes in an axis of length [n]:
    numpy counts a negative index from the end and raises [IndexError]
    outside [-n, n). *)
Definition np_index (n : nat) (x : Z) : result nat :=
  if ((0 <=? x) && (x <? Z.of_nat n))%Z then Ok (Z.to_nat x)
  else if ((- Z.of_nat n <=? x) && (x <? 0))%Z then Ok (Z.to_nat (x + Z.of_nat n))
  else Raise IndexError.

(** [for i,x in enumerate(ids): a[0][i][x] = 1], from row [i] on. *)
Fixpoint fill_one_hot (a : list (list scalar)) (i : nat) (ids : list Z)
    : result (list (list scalar)) :=
  match ids with
  | [] => Ok a
  | x :: rest =>
      match a !! i with
      | None => Raise IndexError
      | Some row =>
          match np_index (length row) x with
          | Raise e => Raise e
          | Ok j => fill_one_hot (<[i := <[j := f64_one]> row]> a) (S i) rest
          end
      end
  end.

(** [a = np.zeros((1, len(ids), width))] followed by the loop that fills
    it; the result is [a[0]]. *)
Definition one_hot (width : nat) (ids : list Z) : result (list (list scalar)) :=
  fill_one_hot (np_zeros (length ids) width) 0 ids.

(** Whether [x] is an index of an axis of length [width]. *)
Definition index_ok (width : nat) (x : Z) : bool :=
  ((- Z.of_nat width <=? x) && (x <? Z.of_nat width))%Z.

(** The row of zeros with a one at the position [x] denotes. *)
Definition one_hot_row (width : nat) (x : Z) : list scalar :=
  <[Z.to_nat (x mod Z.of_nat width) := f64_one]> (replicate width f64_zero).

(** [list(range(n))]. *)
Definition range (n : nat) : list Z := map Z.of_nat (seq 0 n).

Definition vocabulary : nat := Z.to_nat 49408.

Definition max_positions : nat := 77.

Section TextModel.

(** The tensors of the forward pass and what the library does with them:
    [Tensor(a)] of a numpy array with a leading axis of length one, [@] and
    [+]; each returns a tensor or raises. *)
Variable T : Type.
Variable Tensor_of_rows : list (list scalar) -> result T.
Variable matmul : T -> T -> result T.
Variable add : T -> T -> result T.

(** [CLIPTextEmbeddings.__call__(self, input_ids, position_ids)], with the
    two weights of [self]. *)
Definition CLIPTextEmbeddings_call (token_weight position_weight : T)
    (input_ids position_ids : list Z) : result T :=
  inputs ← one_hot vocabulary input_ids;
  positions ← one_hot max_positions position_ids;
  a ← Tensor_of_rows inputs;
  inputs_embeds ← matmul a token_weight;
  b ← Tensor_of_rows positions;
  position_embeddings ← matmul b position_weight;
  add inputs_embeds position_embeddings.

(** [CLIPTextTransformer.__call__(self, input_ids)]; [encoder] and
    [final_layer_norm] are the calls of the two attributes. *)
Definition CLIPTextTransformer_call (token_weight position_weight : T)
    (encoder final_layer_norm : T -> result T) (input_ids : list Z) : result T :=
  x ← CLIPTextEmbeddings_call token_weight position_weight
         input_ids (range (length input_ids));
  x ← encoder x;
  final_layer_norm x.

End TextModel.

(** ** The forward passes of the autoencoder and of the text model *)

Module Net.

#[local] Open Scope list_scope.
#[local] Open Scope Z_scope.

(** [padding] of [Conv2d]: one integer for the four sides, or
    [(left, right, top, bottom)]. *)
Inductive padding : Type :=
| Pad (p : Z)
| Pad4 (left right top bottom : Z).

(** The tensor library as the forward passes use it.  [Conv2d] is the
    class of tinygrad.nn, [Tensor_of_rows a] is [Tensor(a)] for a numpy
    array [a] with a leading axis of length one, [mul_rsqrt x c] is
    [x * c**(-0.5)]; the other operations are methods of [Tensor]. *)
Record TensorLib : Type := mk_TensorLib {
  tensor : Type;
  shape : tensor -> list Z;
  empty : list Z -> tensor;
  reshape : tensor -> list Z -> tensor;
  permute : tensor -> list nat -> tensor;
  expand : tensor -> list Z -> tensor;
  layernorm : tensor -> tensor;
  softmax : tensor -> tensor;
  swish : tensor -> tensor;
  mul : tensor -> tensor -> tensor;
  add : tensor -> tensor -> tensor;
  matmul : tensor -> tensor -> tensor;
  mul_rsqrt : tensor -> Z -> tensor;
  linear : tensor -> tensor -> tensor -> tensor;
  slice_channels : tensor -> Z -> Z -> tensor;
  transpose : tensor -> tensor;
  quick_gelu : tensor -> tensor;
  Tensor_of_rows : list (list scalar) -> tensor;
  Conv2d : Type;
  Conv2d_new : Z -> Z -> Z -> Z -> padding -> Conv2d;
  Conv2d_call : Conv2d -> tensor -> tensor
}.

Arguments shape {_} _.
Arguments empty {_} _.
Arguments reshape {_} _ _.
Arguments permute {_} _ _.
Arguments expand {_} _ _.
Arguments layernorm {_} _.
Arguments softmax {_} _.
Arguments swish {_} _.
Arguments mul {_} _ _.
Arguments add {_} _ _.
Arguments matmul {_} _ _.
Arguments mul_rsqrt {_} _ _.
Arguments linear {_} _ _ _.
Arguments slice_channels {_} _ _ _.
Arguments transpose {_} _.
Arguments quick_gelu {_} _.
Arguments Tensor_of_rows {_} _.
Arguments Conv2d_new {_} _ _ _ _ _.
Arguments Conv2d_call {_} _ _.

Section Forward.

Variable L : TensorLib.

(** [x.sequential(ll)] for callables that may raise. *)
Definition sequential_opt (x : tensor L) (ll : list (tensor L -> option (tensor L)))
    : option (tensor L) :=
  fold_left (fun y f => y ≫= f) ll (Some x).

(** [class Normalize]. *)
Record Normalize_obj : Type := mk_Normalize {
  weight : tensor L;
  bias : tensor L;
  num_groups : Z
}.

Definition Normalize_init (in_channels num_groups : Z) : Normalize_obj :=
  {| weight := empty [in_channels];
     bias := empty [in_channels];
     num_groups := num_groups |}.

(** [Normalize.__call__]; [x.shape[0]] raises on a tensor without axes. *)
Definition Normalize_call (self : Normalize_obj) (x : tensor L) : option (tensor L) :=
  match shape x with
  | [] => None
  | d0 :: _ =>
      let x := reshape (layernorm (reshape x [d0; num_groups self; -1])) (shape x) in
      if (length (shape x) =? 4)%nat
      then Some (add (mul x (reshape (weight self) [1; -1; 1; 1]))
                     (reshape (bias self) [1; -1; 1; 1]))
      else Some (linear x (weight self) (bias self))
  end.

(** [class AttnBlock]. *)
Record AttnBlock_obj : Type := mk_AttnBlock {
  norm : Normalize_obj;
  attn_q : Conv2d L;
  attn_k : Conv2d L;
  attn_v : Conv2d L;
  proj_out : Conv2d L
}.

Definition AttnBlock_init (in_channels : Z) : AttnBlock_obj :=
  {| norm := Normalize_init in_channels 32;
     attn_q := Conv2d_new in_channels in_channels 1 1 (Pad 0);
     attn_k := Conv2d_new in_channels in_channels 1 1 (Pad 0);
     attn_v := Conv2d_new in_channels in_channels 1 1 (Pad 0);
     proj_out := Conv2d_new in_channels in_channels 1 1 (Pad 0) |}.

(** [AttnBlock.__call__]; [b,c,h,w = q.shape] raises unless [q] has four
    axes. *)
Definition AttnBlock_call (self : AttnBlock_obj) (x : tensor L) : option (tensor L) :=
  h_ ← Normalize_call (norm self) x;
  let q_ := Conv2d_call (attn_q self) h_ in
  let k_ := Conv2d_call (attn_k self) h_ in
  let v_ := Conv2d_call (attn_v self) h_ in
  match shape q_ with
  | [b; c; h; w] =>
      let q_ := reshape q_ [b; c; h * w] in
      let q_ := permute q_ [0; 2; 1]%nat in
      let k_ := reshape k_ [b; c; h * w] in
      let w_ := matmul q_ k_ in
      let w_ := mul_rsqrt w_ c in
      let w_ := softmax w_ in
      let v_ := reshape v_ [b; c; h * w] in
      let w_ := permute w_ [0; 2; 1]%nat in
      let h_ := matmul v_ w_ in
      let h_ := reshape h_ [b; c; h; w] in
      Some (add x (Conv2d_call (proj_out self) h_))
  | _ => None
  end.

(** [class ResnetBlock]; [nin_shortcut] is [None] for [lambda x: x]. *)
Record ResnetBlock_obj : Type := mk_ResnetBlock {
  norm1 : Normalize_obj;
  conv1 : Conv2d L;
  norm2 : Normalize_obj;
  conv2 : Conv2d L;
  nin_shortcut : option (Conv2d L)
}.

Definition ResnetBlock_init (in_channels out_channels : Z) : ResnetBlock_obj :=
  {| norm1 := Normalize_init in_channels 32;
     conv1 := Conv2d_new in_channels out_channels 3 1 (Pad 1);
     norm2 := Normalize_init out_channels 32;
     conv2 := Conv2d_new out_channels out_channels 3 1 (Pad 1);
     nin_shortcut :=
       if (in_channels =? out_channels)%Z then None
       else Some (Conv2d_new in_channels out_channels 1 1 (Pad 0)) |}.

Definition ResnetBlock_call (self : ResnetBlock_obj) (x : tensor L) : option (tensor L) :=
  n1 ← Normalize_call (norm1 self) x;
  let h := Conv2d_call (conv1 self) (swish n1) in
  n2 ← Normalize_call (norm2 self) h;
  let h := Conv2d_call (conv2 self) (swish n2) in
  let shortcut := match nin_shortcut self with
                  | Some conv => Conv2d_call conv x
                  | None => x
                  end in
  Some (add shortcut h).

(** [class Mid]. *)
Record Mid_obj : Type := mk_Mid {
  block_1 : ResnetBlock_obj;
  attn_1 : AttnBlock_obj;
  block_2 : ResnetBlock_obj
}.

Definition Mid_init (block_in : Z) : Mid_obj :=
  {| block_1 := ResnetBlock_init block_in block_in;
     attn_1 := AttnBlock_init block_in;
     block_2 := ResnetBlock_init block_in block_in |}.

Definition Mid_call (self : Mid_obj) (x : tensor L) : option (tensor L) :=
  sequential_opt x
    [ResnetBlock_call (block_1 self); AttnBlock_call (attn_1 self);
     ResnetBlock_call (block_2 self)].

(** An element of [Decoder.up] or [Encoder.down]: the dict with the key
    ["block"] and, for some, the key ["upsample"] or ["downsample"] whose
    value is [{"conv": Conv2d(...)}]. *)
Record stage : Type := mk_stage {
  block : list ResnetBlock_obj;
  resample : option (Conv2d L)
}.

(** [for b in l['block']: x = b(x)]. *)
Definition run_stage_blocks (l : stage) (x : tensor L) : option (tensor L) :=
  sequential_opt x (map ResnetBlock_call (block l)).

(** [enumerate(sz)]. *)
Definition enumerate {A : Type} (l : list A) : list (nat * A) :=
  combine (seq 0 (length l)) l.

(** [class Decoder]. *)
Record Decoder_obj : Type := mk_Decoder {
  d_conv_in : Conv2d L;
  d_mid : Mid_obj;
  up : list stage;
  d_norm_out : Normalize_obj;
  d_conv_out : Conv2d L
}.

Definition Decoder_init : Decoder_obj :=
  let sz := [(128, 256); (256, 512); (512, 512); (512, 512)] in
  {| d_conv_in := Conv2d_new 4 512 3 1 (Pad 1);
     d_mid := Mid_init 512;
     up := map (fun '(i, s) =>
                  {| block := [ResnetBlock_init (snd s) (fst s);
                               ResnetBlock_init (fst s) (fst s);
                               ResnetBlock_init (fst s) (fst s)];
                     resample :=
                       if (i =? 0)%nat then None
                       else Some (Conv2d_new (fst s) (fst s) 3 1 (Pad 1)) |})
               (enumerate sz);
     d_norm_out := Normalize_init 128 32;
     d_conv_out := Conv2d_new 128 3 3 1 (Pad 1) |}.

(** The body of [for l in self.up[::-1]] in [Decoder.__call__] (without
    the [print]). *)
Definition Decoder_stage (x : tensor L) (l : stage) : option (tensor L) :=
  x ← run_stage_blocks l x;
  match resample l with
  | None => Some x
  | Some conv =>
      match shape x with
      | [bs; c; py; px] =>
          let x := reshape x [bs; c; py; 1; px; 1] in
          let x := expand x [bs; c; py; 2; px; 2] in
          let x := reshape x [bs; c; py * 2; px * 2] in
          Some (Conv2d_call conv x)
      | _ => None
      end
  end.

Definition Decoder_call (self : Decoder_obj) (x : tensor L) : option (tensor L) :=
  let x := Conv2d_call (d_conv_in self) x in
  x ← Mid_call (d_mid self) x;
  x ← fold_left (fun y l => y ≫= fun x => Decoder_stage x l) (rev (up self)) (Some x);
  n ← Normalize_call (d_norm_out self) x;
  Some (Conv2d_call (d_conv_out self) (swish n)).

(** [class Encoder]. *)
Record Encoder_obj : Type := mk_Encoder {
  e_conv_in : Conv2d L;
  down : list stage;
  e_mid : Mid_obj;
  e_norm_out : Normalize_obj;
  e_conv_out : Conv2d L
}.

Definition Encoder_init : Encoder_obj :=
  let sz := [(128, 128); (128, 256); (256, 512); (512, 512)] in
  {| e_conv_in := Conv2d_new 3 128 3 1 (Pad 1);
     down := map (fun '(i, s) =>
                    {| block := [ResnetBlock_init (fst s) (snd s);
                                 ResnetBlock_init (snd s) (snd s)];
                       resample :=
                         if (i =? 3)%nat then None
                         else Some (Conv2d_new (snd s) (snd s) 3 2 (Pad4 0 1 0 1)) |})
                 (enumerate sz);
     e_mid := Mid_init 512;
     e_norm_out := Normalize_init 512 32;
     e_conv_out := Conv2d_new 512 8 3 1 (Pad 1) |}.

(** The body of [for l in self.down] in [Encoder.__call__] (without the
    [print]). *)
Definition Encoder_stage (x : tensor L) (l : stage) : option (tensor L) :=
  x ← run_stage_blocks l x;
  match resample l with
  | None => Some x
  | Some conv => Some (Conv2d_call conv x)
  end.

Definition Encoder_call (self : Encoder_obj) (x : tensor L) : option (tensor L) :=
  let x := Conv2d_call (e_conv_in self) x in
  x ← fold_left (fun y l => y ≫= fun x => Encoder_stage x l) (down self) (Some x);
  x ← Mid_call (e_mid self) x;
  n ← Normalize_call (e_norm_out self) x;
  Some (Conv2d_call (e_conv_out self) (swish n)).

(** [class AutoencoderKL]. *)
Record AutoencoderKL_obj : Type := mk_AutoencoderKL {
  encoder : Encoder_obj;
  decoder : Decoder_obj;
  quant_conv : Conv2d L;
  post_quant_conv : Conv2d L
}.

Definition AutoencoderKL_init : AutoencoderKL_obj :=
  {| encoder := Encoder_init;
     decoder := Decoder_init;
     quant_conv := Conv2d_new 8 8 1 1 (Pad 0);
     post_quant_conv := Conv2d_new 4 4 1 1 (Pad 0) |}.

(** [AutoencoderKL.__call__] (without the [print]); [latent[:, 0:4]] keeps
    the first four channels. *)
Definition AutoencoderKL_call (self : AutoencoderKL_obj) (x : tensor L)
    : option (tensor L) :=
  latent ← Encoder_call (encoder self) x;
  let latent := Conv2d_call (quant_conv self) latent in
  let latent := slice_channels latent 0 4 in
  let latent := Conv2d_call (post_quant_conv self) latent in
  Decoder_call (decoder self) latent.

(** [class Downsample]. *)
Definition Downsample_init (channels : Z) : Conv2d L :=
  Conv2d_new channels channels 3 2 (Pad4 0 1 0 1).

Definition Downsample_call (op : Conv2d L) (x : tensor L) : option (tensor L) :=
  Some (Conv2d_call op x).

(** [class Upsample]; [bs,c,py,px = x.shape] raises unless [x] has four
    axes. *)
Definition Upsample_init (channels : Z) : Conv2d L :=
  Conv2d_new channels channels 3 1 (Pad 1).

Definition Upsample_call (conv : Conv2d L) (x : tensor L) : option (tensor L) :=
  match shape x with
  | [bs; c; py; px] =>
      let x := reshape x [bs; c; py; 1; px; 1] in
      let x := expand x [bs; c; py; 2; px; 2] in
      let x := reshape x [bs; c; py * 2; px * 2] in
      Some (Conv2d_call conv x)
  | _ => None
  end.

(** [class Linear] with [bias=True], as every [Linear] of the text model
    is built. *)
Record Linear_obj : Type := mk_Linear {
  lin_weight : tensor L;
  lin_bias : tensor L
}.

Definition Linear_init (in_features out_features : Z) : Linear_obj :=
  {| lin_weight := empty [out_features; in_features];
     lin_bias := empty [out_features] |}.

Definition Linear_call (self : Linear_obj) (x : tensor L) : tensor L :=
  linear x (transpose (lin_weight self)) (lin_bias self).

(** [class CLIPMLP]. *)
Record CLIPMLP_obj : Type := mk_CLIPMLP {
  fc1 : Linear_obj;
  fc2 : Linear_obj
}.

Definition CLIPMLP_init : CLIPMLP_obj :=
  {| fc1 := Linear_init 768 3072; fc2 := Linear_init 3072 768 |}.

Definition CLIPMLP_call (self : CLIPMLP_obj) (hidden_states : tensor L) : tensor L :=
  let hidden_states := Linear_call (fc1 self) hidden_states in
  let hidden_states := quick_gelu hidden_states in
  let hidden_states := Linear_call (fc2 self) hidden_states in
  hidden_states.

(** [class CLIPAttention]; [self.scale] is [self.head_dim**-0.5]. *)
Record CLIPAttention_obj : Type := mk_CLIPAttention {
  embed_dim : Z;
  num_heads : Z;
  head_dim : Z;
  k_proj : Linear_obj;
  v_proj : Linear_obj;
  q_proj : Linear_obj;
  out_proj : Linear_obj
}.

Definition CLIPAttention_init : CLIPAttention_obj :=
  let embed_dim := 768 in
  let num_heads := 12 in
  {| embed_dim := embed_dim;
     num_heads := num_heads;
     head_dim := embed_dim / num_heads;
     k_proj := Linear_init embed_dim embed_dim;
     v_proj := Linear_init embed_dim embed_dim;
     q_proj := Linear_init embed_dim embed_dim;
     out_proj := Linear_init embed_dim embed_dim |}.

(** [CLIPAttention._shape]. *)
Definition CLIPAttention_shape (self : CLIPAttention_obj) (t : tensor L)
    (seq_len bsz : Z) : tensor L :=
  permute (reshape t [bsz; seq_len; num_heads self; head_dim self]) [0; 2; 1; 3]%nat.

(** [CLIPAttention.__call__]; the unpacking of [hidden_states.shape]
    raises unless there are three axes. *)
Definition CLIPAttention_call (self : CLIPAttention_obj) (hidden_states : tensor L)
    : option (tensor L) :=
  match shape hidden_states with
  | [bsz; tgt_len; embed_dim] =>
      let query_states :=
        mul_rsqrt (Linear_call (q_proj self) hidden_states) (head_dim self) in
      let key_states :=
        CLIPAttention_shape self (Linear_call (k_proj self) hidden_states) (-1) bsz in
      let value_states :=
        CLIPAttention_shape self (Linear_call (v_proj self) hidden_states) (-1) bsz in
      let proj_shape := [bsz * num_heads self; -1; head_dim self] in
      let query_states :=
        reshape (CLIPAttention_shape self query_states tgt_len bsz) proj_shape in
      let key_states := reshape key_states proj_shape in
      let value_states := reshape value_states proj_shape in
      let attn_weights := matmul query_states (permute key_states [0; 2; 1]%nat) in
      let attn_weights := softmax attn_weights in
      let attn_output := matmul attn_weights value_states in
      let attn_output :=
        reshape attn_output [bsz; num_heads self; tgt_len; head_dim self] in
      let attn_output := permute attn_output [0; 2; 1; 3]%nat in
      let attn_output := reshape attn_output [bsz; tgt_len; embed_dim] in
      let attn_output := Linear_call (out_proj self) attn_output in
      Some attn_output
  | _ => None
  end.

(** [class CLIPEncoderLayer]. *)
Record CLIPEncoderLayer_obj : Type := mk_CLIPEncoderLayer {
  self_attn : CLIPAttention_obj;
  layer_norm1 : Normalize_obj;
  mlp : CLIPMLP_obj;
  layer_norm2 : Normalize_obj
}.

Definition CLIPEncoderLayer_init : CLIPEncoderLayer_obj :=
  {| self_attn := CLIPAttention_init;
     layer_norm1 := Normalize_init 768 1;
     mlp := CLIPMLP_init;
     layer_norm2 := Normalize_init 768 1 |}.

Definition CLIPEncoderLayer_call (self : CLIPEncoderLayer_obj)
    (hidden_states : tensor L) : option (tensor L) :=
  let residual := hidden_states in
  hidden_states ← Normalize_call (layer_norm1 self) hidden_states;
  hidden_states ← CLIPAttention_call (self_attn self) hidden_states;
  let hidden_states := add residual hidden_states in
  let residual := hidden_states in
  hidden_states ← Normalize_call (layer_norm2 self) hidden_states;
  let hidden_states := CLIPMLP_call (mlp self) hidden_states in
  let hidden_states := add residual hidden_states in
  Some hidden_states.

(** [class CLIPEncoder]. *)
Definition CLIPEncoder_init : list CLIPEncoderLayer_obj :=
  map (fun _ => CLIPEncoderLayer_init) (seq 0 12).

Definition CLIPEncoder_call (layers : list CLIPEncoderLayer_obj)
    (hidden_states : tensor L) : option (tensor L) :=
  sequential_opt hidden_states (map CLIPEncoderLayer_call layers).

(** [class CLIPTextEmbeddings]; the two dicts hold one tensor each, under
    the key ["weight"]. *)
Record CLIPTextEmbeddings_obj : Type := mk_CLIPTextEmbeddings {
  position_ids : tensor L;
  token_embedding : tensor L;
  position_embedding : tensor L
}.

Definition CLIPTextEmbeddings_init : CLIPTextEmbeddings_obj :=
  {| position_ids := empty [1; 77];
     token_embedding := empty [49408; 768];
     position_embedding := empty [77; 768] |}.

(** [class CLIPTextTransformer]. *)
Record CLIPTextTransformer_obj : Type := mk_CLIPTextTransformer {
  embeddings : CLIPTextEmbeddings_obj;
  text_encoder : list CLIPEncoderLayer_obj;
  final_layer_norm : Normalize_obj
}.

Definition CLIPTextTransformer_init : CLIPTextTransformer_obj :=
  {| embeddings := CLIPTextEmbeddings_init;
     text_encoder := CLIPEncoder_init;
     final_layer_norm := Normalize_init 768 1 |}.

(** [CLIPTextTransformer.__call__], on the embeddings of
    [CLIPTextEmbeddings_call]; [None] for any exception. *)
Definition CLIPTextTransformer_forward (self : CLIPTextTransformer_obj)
    (input_ids : list Z) : option (tensor L) :=
  match CLIPTextEmbeddings_call (tensor L)
          (fun a => Ok (Tensor_of_rows a))
          (fun x y => Ok (matmul x y)) (fun x y => Ok (add x y))
          (token_embedding (embeddings self)) (position_embedding (embeddings self))
          input_ids (range (length input_ids)) with
  | Raise _ => None
  | Ok x =>
      x ← CLIPEncoder_call (text_encoder self) x;
      Normalize_call (final_layer_norm self) x
  end.

End Forward.

(** *** What the forward passes assume of the library *)

(** The number of elements of a shape. *)
Definition numel (s : list Z) : Z := fold_right Z.mul 1 s.

(** The shape [reshape] gives: a [-1] stands for the size that keeps the
    number of elements. *)
Definition reshape_shape (s sh : list Z) : list Z :=
  map (fun d => if d =? -1 then (- numel s) / numel sh else d) sh.

(** The shape of [x * y] and [x + y]: axes are paired from the last one
    back, equal or one of them 1. *)
Fixpoint broadcast_rev (a b : list Z) : option (list Z) :=
  match a, b with
  | [], r | r, [] => Some r
  | d :: a', e :: b' =>
      r ← broadcast_rev a' b';
      if d =? e then Some (d :: r)
      else if d =? 1 then Some (e :: r)
      else if e =? 1 then Some (d :: r)
      else None
  end.

Definition broadcast (a b : list Z) : option (list Z) :=
  @rev Z <$> broadcast_rev (rev a) (rev b).

(** The padding added to the height and to the width. *)
Definition pad_height (p : padding) : Z :=
  match p with Pad n => 2 * n | Pad4 _ _ t b => t + b end.

Definition pad_width (p : padding) : Z :=
  match p with Pad n => 2 * n | Pad4 l r _ _ => l + r end.

(** What the theorems on the forward passes assume of the library, which
    is no part of this file: the shapes of the results of its operations
    on arguments it accepts, by the rules of numpy ([-1] in [reshape],
    broadcasting, the matrix product over the last two axes) and the
    output size of a convolution. *)
Record Contract (L : TensorLib) : Prop := mk_Contract {
  shape_empty : forall sh, @shape L (empty sh) = sh;
  shape_reshape : forall (x : tensor L) sh,
    Forall (fun d => 0 < d) (reshape_shape (shape x) sh) ->
    numel (reshape_shape (shape x) sh) = numel (shape x) ->
    shape (reshape x sh) = reshape_shape (shape x) sh;
  shape_permute : forall (x : tensor L) order,
    Permutation order (seq 0 (length (shape x))) ->
    shape (permute x order) = map (fun i => nth i (shape x) 0) order;
  shape_expand : forall (x : tensor L) sh,
    Forall2 (fun d e => d = e \/ d = 1) (shape x) sh ->
    shape (expand x sh) = sh;
  shape_layernorm : forall x : tensor L, shape (layernorm x) = shape x;
  shape_softmax : forall x : tensor L, shape (softmax x) = shape x;
  shape_swish : forall x : tensor L, shape (swish x) = shape x;
  shape_mul_rsqrt : forall (x : tensor L) c, shape (mul_rsqrt x c) = shape x;
  shape_mul : forall (x y : tensor L) s,
    broadcast (shape x) (shape y) = Some s -> shape (mul x y) = s;
  shape_add : forall (x y : tensor L) s,
    broadcast (shape x) (shape y) = Some s -> shape (add x y) = s;
  shape_matmul : forall (x y : tensor L) batch m k n,
    shape x = batch ++ [m; k] -> shape y = batch ++ [k; n] ->
    shape (matmul x y) = batch ++ [m; n];
  shape_linear : forall (x w b : tensor L) init c,
    shape x = init ++ [c] -> shape w = [c] -> shape b = [c] ->
    shape (linear x w b) = shape x;
  shape_linear_matrix : forall (x w b : tensor L) init k n,
    shape x = init ++ [k] -> shape w = [k; n] -> shape b = [n] ->
    shape (linear x w b) = init ++ [n];
  shape_matmul_matrix : forall (x y : tensor L) init m k n,
    shape x = init ++ [m; k] -> shape y = [k; n] ->
    shape (matmul x y) = init ++ [m; n];
  shape_transpose : forall (x : tensor L) m n,
    shape x = [m; n] -> shape (transpose x) = [n; m];
  shape_quick_gelu : forall x : tensor L, shape (quick_gelu x) = shape x;
  shape_Tensor_of_rows : forall (rows : list (list scalar)) (width : nat),
    rows <> [] -> Forall (fun row => length row = width) rows ->
    @shape L (Tensor_of_rows rows) = [1; Z.of_nat (length rows); Z.of_nat width];
  shape_slice_channels : forall (x : tensor L) b c h w lo hi,
    shape x = [b; c; h; w] -> 0 <= lo -> lo <= hi -> hi <= c ->
    shape (slice_channels x lo hi) = [b; hi - lo; h; w];
  shape_Conv2d : forall cin cout k s p (x : tensor L) b h w,
    shape x = [b; cin; h; w] -> 0 < s ->
    k <= h + pad_height p -> k <= w + pad_width p ->
    shape (Conv2d_call (Conv2d_new cin cout k s p) x) =
    [b; cout; (h + pad_height p - k) / s + 1; (w + pad_width p - k) / s + 1]
}.

(** [f] takes every tensor of shape [s] to a tensor of shape [s']. *)
Definition maps_shape {L : TensorLib} (f : tensor L -> option (tensor L))
    (s s' : list Z) : Prop :=
  forall x, shape x = s -> exists y, f x = Some y /\ shape y = s'.

(** The library with nothing but shapes: a tensor is its shape.  It meets
    the contract, and the forward passes can be run on it. *)
Definition Shapes : TensorLib :=
  {| tensor := list Z;
     shape := fun s => s;
     empty := fun sh => sh;
     reshape := reshape_shape;
     permute := fun s order => map (fun i => nth i s 0) order;
     expand := fun _ sh => sh;
     layernorm := fun s => s;
     softmax := fun s => s;
     swish := fun s => s;
     mul := fun a b => default [] (broadcast a b);
     add := fun a b => default [] (broadcast a b);
     matmul := fun a b => removelast a ++ [List.last b 0];
     mul_rsqrt := fun s _ => s;
     linear := fun s w _ =>
       match w with
       | [_; n] => removelast s ++ [n]
       | _ => s
       end;
     transpose := @rev Z;
     quick_gelu := fun s => s;
     Tensor_of_rows := fun rows =>
       [1; Z.of_nat (length rows); Z.of_nat (length (hd [] rows))];
     slice_channels := fun s lo hi =>
       match s with
       | b :: _ :: rest => b :: (hi - lo) :: rest
       | _ => s
       end;
     Conv2d := Z * Z * Z * padding;
     Conv2d_new := fun _ cout k s p => (cout, k, s, p);
     Conv2d_call := fun '(cout, k, s, p) x =>
       match x with
       | [b; _; h; w] =>
           [b; cout; (h + pad_height p - k) / s + 1; (w + pad_width p - k) / s + 1]
       | _ => x
       end |}.

End Net.

(** * Properties *)

Open Scope list_scope.

Arguments loop_body : simpl never.

(** ** The cast *)

(** The cast keeps the shape and the number of elements, and changes the
    element type to float32. *)
Lemma astype_float32_shape v : nd_shape (astype_float32 v) = nd_shape v.
Proof. reflexivity. Qed.

Lemma astype_float32_length v :
  length (nd_data (astype_float32 v)) = length (nd_data v).
Proof. unfold astype_float32. simpl. now rewrite length_map. Qed.

(** It is not the identity on float64 data: 0.1 is rounded. *)
Example to_float32_rounds_tenth :
  to_float32 Samples.tenth = SFloat (S754_finite false 13421773 (-27)).
Proof. reflexivity. Qed.

(** *** The numbers the cast gives are binary32 numbers *)

Section Rounding.

#[local] Open Scope Z_scope.

(** The number of binary digits of a mantissa. *)
Lemma Zdigits2_nonneg (m : Z) : 0 <= Zdigits2 m.
Proof. destruct m; simpl; lia. Qed.

Lemma Zdigits2_log2 (p : positive) : Zdigits2 (Zpos p) = Z.log2 (Zpos p) + 1.
Proof.
  simpl. induction p as [p IH|p IH|]; [| |reflexivity].
  - change (digits2_pos p~1) with (Pos.succ (digits2_pos p)).
    destruct p; simpl in *; lia.
  - change (digits2_pos p~0) with (Pos.succ (digits2_pos p)).
    destruct p; simpl in *; lia.
Qed.

Lemma Zdigits2_succ (m : Z) :
  0 <= m -> Zdigits2 m <= Zdigits2 (m + 1) <= Zdigits2 m + 1.
Proof.
  intros Hm. destruct m as [|p|p]; [simpl; lia| |lia].
  assert (H1 : 0 < Z.pos p + 1) by lia.
  destruct (Z.pos p + 1) as [|q|q] eqn:Hq; try lia.
  rewrite !Zdigits2_log2, <- Hq.
  pose proof (Z.log2_succ_le (Z.pos p)).
  pose proof (Z.log2_le_mono (Z.pos p) (Z.succ (Z.pos p))).
  unfold Z.succ in *. lia.
Qed.

Lemma digits2_pos_iter_xO (m s : positive) :
  Zpos (digits2_pos (Pos.iter xO m s)) = Zpos (digits2_pos m) + Zpos s.
Proof.
  induction s as [|s IH] using Pos.peano_ind.
  - simpl. lia.
  - rewrite Pos.iter_succ. simpl. lia.
Qed.

Lemma shr_1_digits (mrs : shr_record) :
  0 <= shr_m mrs ->
  0 <= shr_m (shr_1 mrs) /\
  Zdigits2 (shr_m (shr_1 mrs)) = Z.max 0 (Zdigits2 (shr_m mrs) - 1).
Proof.
  destruct mrs as [m r s]. cbn [shr_m]. intros Hm.
  destruct m as [|[p|p|]|p]; cbn [shr_1 shr_m Zdigits2 digits2_pos];
    rewrite ?Pos2Z.inj_succ; lia.
Qed.

Lemma iter_shr_1_digits (p : positive) (mrs : shr_record) :
  0 <= shr_m mrs ->
  0 <= shr_m (SpecFloat.iter_pos shr_1 p mrs) /\
  Zdigits2 (shr_m (SpecFloat.iter_pos shr_1 p mrs)) = Z.max 0 (Zdigits2 (shr_m mrs) - Zpos p).
Proof.
  revert mrs. induction p as [p IH|p IH|]; intros mrs Hm; simpl.
  - destruct (shr_1_digits mrs Hm) as [H1 E1].
    destruct (IH _ H1) as [H2 E2]. destruct (IH _ H2) as [H3 E3].
    split; [exact H3|]. rewrite E3, E2, E1. lia.
  - destruct (IH _ Hm) as [H2 E2]. destruct (IH _ H2) as [H3 E3].
    split; [exact H3|]. rewrite E3, E2. lia.
  - apply shr_1_digits, Hm.
Qed.

Lemma shr_record_of_loc_m (m : Z) (l : location) : shr_m (shr_record_of_loc m l) = m.
Proof. destruct l as [|[]]; reflexivity. Qed.

Lemma shr_fexp_digits (prec emax m e : Z) (l : location) :
  0 <= m -> e <= fexp prec emax (Zdigits2 m + e) ->
  exists mrs,
    shr_fexp prec emax m e l = (mrs, fexp prec emax (Zdigits2 m + e)) /\
    0 <= shr_m mrs /\
    Zdigits2 (shr_m mrs) =
      Z.max 0 (Zdigits2 m - (fexp prec emax (Zdigits2 m + e) - e)).
Proof.
  intros Hm Hn. unfold shr_fexp, shr.
  pose proof (Zdigits2_nonneg m) as Hd.
  destruct (fexp prec emax (Zdigits2 m + e) - e) as [|p|p] eqn:En; [| |lia].
  - exists (shr_record_of_loc m l). rewrite shr_record_of_loc_m.
    split; [f_equal; lia|]. split; [exact Hm|lia].
  - exists (SpecFloat.iter_pos shr_1 p (shr_record_of_loc m l)).
    split; [f_equal; lia|].
    pose proof (iter_shr_1_digits p (shr_record_of_loc m l)) as H.
    rewrite shr_record_of_loc_m in H. exact (H Hm).
Qed.

Lemma round_nearest_even_cases (m : Z) (l : location) :
  round_nearest_even m l = m \/ round_nearest_even m l = m + 1.
Proof. destruct l as [|[]]; simpl; auto. destruct (Z.even m); auto. Qed.

Lemma fexp_binary32 (x : Z) : fexp 24 128 x = Z.max (x - 24) (-149).
Proof. reflexivity. Qed.

(** Rounding a mantissa that is not shorter than the format asks for gives
    a number of the format. *)
Lemma binary_round_aux_valid (sx : bool) (mx ex : Z) (lx : location) :
  0 <= mx -> ex <= fexp 24 128 (Zdigits2 mx + ex) ->
  valid_binary 24 128 (binary_round_aux 24 128 sx mx ex lx) = true.
Proof.
  intros Hm Hn. unfold binary_round_aux.
  destruct (shr_fexp_digits 24 128 mx ex lx Hm Hn) as (mrs1 & -> & Hm1 & Hd1).
  set (e1 := fexp 24 128 (Zdigits2 mx + ex)) in *.
  set (m1 := round_nearest_even (shr_m mrs1) (loc_of_shr_record mrs1)).
  assert (Hm1' : 0 <= m1).
  { unfold m1. destruct (round_nearest_even_cases (shr_m mrs1) (loc_of_shr_record mrs1))
      as [-> | ->]; lia. }
  assert (Hd1' : Zdigits2 (shr_m mrs1) <= Zdigits2 m1 <= Zdigits2 (shr_m mrs1) + 1).
  { unfold m1. destruct (round_nearest_even_cases (shr_m mrs1) (loc_of_shr_record mrs1))
      as [-> | ->]; [lia|]. now apply Zdigits2_succ. }
  pose proof (Zdigits2_nonneg mx) as Hdx.
  assert (He1 : e1 = Z.max (Zdigits2 mx + ex - 24) (-149)) by reflexivity.
  assert (Hn2 : e1 <= fexp 24 128 (Zdigits2 m1 + e1)).
  { rewrite fexp_binary32. lia. }
  destruct (shr_fexp_digits 24 128 m1 e1 loc_Exact Hm1' Hn2) as (mrs2 & -> & Hm2 & Hd2).
  destruct (shr_m mrs2) as [|m|m] eqn:E2; [reflexivity| |reflexivity].
  destruct (Z.leb_spec (fexp 24 128 (Zdigits2 m1 + e1)) (128 - 24)) as [Hle|Hgt];
    [|reflexivity].
  simpl. unfold bounded, canonical_mantissa.
  rewrite (proj2 (Z.leb_le _ _) Hle), Bool.andb_true_r.
  apply Z.eqb_eq. change (Z.pos (digits2_pos m)) with (Zdigits2 (Z.pos m)).
  rewrite Hd2, !fexp_binary32. clearbody e1 m1. lia.
Qed.

Lemma binary_round_valid (sx : bool) (mx : positive) (ex : Z) :
  valid_binary 24 128 (binary_round 24 128 sx mx ex) = true.
Proof.
  unfold binary_round, shl_align.
  change (IntDef.Z.add (Z.pos (digits2_pos mx)) ex) with (Zdigits2 (Z.pos mx) + ex).
  set (e' := fexp 24 128 (Zdigits2 (Z.pos mx) + ex)).
  change (IntDef.Z.sub e' ex) with (e' - ex).
  destruct (e' - ex) as [|d|d] eqn:Ed.
  - apply binary_round_aux_valid; [lia|]. fold e'. lia.
  - apply binary_round_aux_valid; [lia|]. fold e'. lia.
  - apply binary_round_aux_valid; [lia|]. cbn [Zdigits2].
    rewrite digits2_pos_iter_xO.
    replace (Z.pos (digits2_pos mx) + Z.pos d + e') with (Zdigits2 (Z.pos mx) + ex)
      by (cbn [Zdigits2]; lia).
    fold e'. lia.
Qed.

Lemma binary_normalize_valid (m e : Z) (szero : bool) :
  valid_binary 24 128 (binary_normalize 24 128 m e szero) = true.
Proof. destruct m; [reflexivity| |]; apply binary_round_valid. Qed.

End Rounding.

(** Every element the cast gives is a number of the binary32 format,
    whatever the element was: a float of another format, one that is of
    no format, or an integer. *)
Lemma to_float32_is_float32 (x : scalar) : is_float32 (to_float32 x) = true.
Proof.
  destruct x as [f|z]; simpl.
  - destruct f; try reflexivity. apply binary_round_valid.
  - apply binary_normalize_valid.
Qed.

Lemma astype_float32_data (v : ndarray) :
  Forall (fun x => is_float32 x = true) (map to_float32 (nd_data v)).
Proof. apply Forall_map, Forall_forall. intros x _. apply to_float32_is_float32. Qed.

Lemma Tensor_of_astype_holds_float32 (v : ndarray) :
  holds_float32 (Tensor_of_ndarray (astype_float32 v)).
Proof. split; [reflexivity|]. intros data [= <-]. apply astype_float32_data. Qed.

Lemma Tensor_placeholder_holds_float32 (sh : list Z) :
  holds_float32 (Tensor_placeholder sh).
Proof. split; [reflexivity|]. discriminate. Qed.

(** ** The loop, for any resolver *)

Section LoaderFacts.

Variable get_child : pyobj -> string -> result pyobj.
Variable model : pyobj.

#[local] Abbreviation body := (loop_body get_child model).
#[local] Abbreviation load := (load_weights get_child model).

Ltac body_cases k :=
  unfold loop_body, try_get_child, shape_eqb, assign;
  destruct (get_child model k) as [[]|[]]; simpl;
  try case_bool_decide.

Lemma load_weights_app pre post s :
  load (pre ++ post) s =
  match load pre s with
  | Done s' => load post s'
  | Aborted e s' => Aborted e s'
  end.
Proof.
  revert s. induction pre as [|kv pre IH]; intros s; simpl; [reflexivity|].
  destruct (body s kv); [apply IH | reflexivity].
Qed.

(** *** What one turn of the loop does *)

(** An item whose key resolves to a tensor of the array's shape is bound. *)
Lemma loop_body_bound s k v l :
  get_child model k = Ok (PTensor l) ->
  t_shape (st_heap s !!! l) = nd_shape v ->
  body s (k, v) =
  Done {| st_heap := <[l := Tensor_of_ndarray (astype_float32 v)]> (st_heap s);
          st_out := st_out s ++ [mk_line (nd_shape v) (PTensor l) k] |}.
Proof.
  intros Hg Hs. unfold loop_body, try_get_child, shape_eqb, assign.
  rewrite Hg. simpl. rewrite bool_decide_eq_true_2; auto.
Qed.

(** One whose key resolves to a tensor of another shape fails the
    assertion, after its line is printed. *)
Lemma loop_body_mismatch s k v l :
  get_child model k = Ok (PTensor l) ->
  t_shape (st_heap s !!! l) <> nd_shape v ->
  body s (k, v) =
  Aborted AssertionError
    {| st_heap := st_heap s;
       st_out := st_out s ++ [mk_line (nd_shape v) (PTensor l) k] |}.
Proof.
  intros Hg Hs. unfold loop_body, try_get_child, shape_eqb, assign.
  rewrite Hg. simpl. rewrite bool_decide_eq_false_2; auto.
Qed.

(** One whose lookup raises an exception of the [except] clause is printed
    with [None] and nothing else happens. *)
Lemma loop_body_skip s k v e :
  get_child model k = Raise e ->
  caught e = true ->
  body s (k, v) =
  Done {| st_heap := st_heap s;
          st_out := st_out s ++ [mk_line (nd_shape v) PNone k] |}.
Proof.
  intros Hg Hc. unfold loop_body, try_get_child. rewrite Hg, Hc. reflexivity.
Qed.

(** The three ways a turn of the loop ends with an exception: the lookup
    raises one the [except] clause does not name; the shapes differ; the
    object found is neither [None] nor a tensor. *)
Lemma loop_body_aborted s k v e s' :
  body s (k, v) = Aborted e s' ->
  (get_child model k = Raise e /\ caught e = false /\ s' = s) \/
  (exists l, get_child model k = Ok (PTensor l) /\
             t_shape (st_heap s !!! l) <> nd_shape v /\
             e = AssertionError /\
             s' = {| st_heap := st_heap s;
                     st_out := st_out s ++ [mk_line (nd_shape v) (PTensor l) k] |}) \/
  (exists w, get_child model k = Ok w /\ e = AttributeError /\
             s' = {| st_heap := st_heap s;
                     st_out := st_out s ++ [mk_line (nd_shape v) w k] |}).
Proof.
  unfold loop_body, try_get_child, shape_eqb, assign.
  destruct (get_child model k) as [w|e0] eqn:Hg.
  - destruct w; simpl; try discriminate;
      try (intros [= <- <-]; right; right; eauto).
    case_bool_decide; [discriminate|].
    intros [= <- <-]. right. left. eauto 10.
  - destruct (caught e0) eqn:Hc; [discriminate|].
    intros [= <- <-]. left. auto.
Qed.

Lemma loop_body_prints s kv :
  (exists e, body s kv = Aborted e s) \/
  st_out (final (body s kv)) = st_out s ++ [printed get_child model kv].
Proof.
  destruct kv as [k v]. unfold printed, loop_body. simpl.
  destruct (try_get_child get_child model k) as [w|e]; [right|left; eauto].
  destruct w; simpl; try reflexivity.
  destruct (shape_eqb _ _); reflexivity.
Qed.

(** *** Shapes never change *)

Lemma loop_body_shape s kv l :
  t_shape (st_heap (final (body s kv)) !!! l) = t_shape (st_heap s !!! l).
Proof.
  destruct kv as [k v]. body_cases k; simpl; try reflexivity.
  destruct (decide (l0 = l)) as [->|Hne].
  - rewrite lookup_total_insert_eq. simpl. congruence.
  - rewrite lookup_total_insert_ne; auto.
Qed.

Lemma load_weights_shape items s l :
  t_shape (st_heap (final (load items s)) !!! l) = t_shape (st_heap s !!! l).
Proof.
  revert s. induction items as [|kv items IH]; intros s; simpl; [reflexivity|].
  pose proof (loop_body_shape s kv l) as Hb.
  destruct (body s kv) as [s'|e s']; simpl in *; [rewrite IH|]; exact Hb.
Qed.

(** *** The lines already printed do not steer the loop *)

Lemma loop_body_out s out' kv :
  status (body {| st_heap := st_heap s; st_out := out' |} kv) = status (body s kv) /\
  st_heap (final (body {| st_heap := st_heap s; st_out := out' |} kv)) =
  st_heap (final (body s kv)).
Proof.
  destruct kv as [k v]. body_cases k; simpl; auto.
Qed.

Lemma load_weights_out items s out' :
  status (load items {| st_heap := st_heap s; st_out := out' |}) = status (load items s) /\
  st_heap (final (load items {| st_heap := st_heap s; st_out := out' |})) =
  st_heap (final (load items s)).
Proof.
  revert s out'. induction items as [|kv items IH]; intros s out'; simpl; [auto|].
  destruct (loop_body_out s out' kv) as [Hst Hh].
  destruct (body s kv) as [s1|e s1], (body _ kv) as [s2|e2 s2];
    simpl in *; try discriminate.
  - destruct s2 as [h2 o2]; simpl in *; subst h2. apply (IH s1 o2).
  - split; congruence.
Qed.

(** *** Cells no item resolves to *)

Lemma loop_body_other s k v l :
  get_child model k <> Ok (PTensor l) ->
  st_heap (final (body s (k, v))) !! l = st_heap s !! l.
Proof.
  intros Hne. body_cases k; simpl; try reflexivity.
  apply lookup_insert_ne. congruence.
Qed.

Lemma load_weights_other items s l :
  (forall k v, In (k, v) items -> get_child model k <> Ok (PTensor l)) ->
  st_heap (final (load items s)) !! l = st_heap s !! l.
Proof.
  revert s. induction items as [|[k v] items IH]; intros s Hno; simpl; [reflexivity|].
  pose proof (loop_body_other s k v l (Hno k v (or_introl eq_refl))) as Hb.
  destruct (body s (k, v)) as [s'|e s']; simpl in *; [|exact Hb].
  rewrite IH; [exact Hb|]. intros k' v' Hin. apply (Hno k' v'). now right.
Qed.

(** *** The element type of a cell *)

(** A cell is as it was, or it holds the cast of an array: float32
    numbers, and a buffer. *)
Lemma loop_body_float32 s kv l :
  st_heap (final (body s kv)) !! l = st_heap s !! l \/
  exists t, st_heap (final (body s kv)) !! l = Some t /\ holds_float32 t /\
            exists data, t_data t = Some data.
Proof.
  destruct kv as [k v]. body_cases k; simpl; auto.
  destruct (decide (l0 = l)) as [->|Hne].
  - right. rewrite lookup_insert_eq. eexists. split; [reflexivity|].
    split; [apply Tensor_of_astype_holds_float32|]. simpl. eauto.
  - left. now rewrite lookup_insert_ne.
Qed.

Lemma load_weights_float32 items s l :
  st_heap (final (load items s)) !! l = st_heap s !! l \/
  exists t, st_heap (final (load items s)) !! l = Some t /\ holds_float32 t /\
            exists data, t_data t = Some data.
Proof.
  revert s. induction items as [|kv items IH]; intros s; simpl; [auto|].
  pose proof (loop_body_float32 s kv l) as Hb.
  destruct (body s kv) as [s'|e s']; simpl in *; [|exact Hb].
  destruct (IH s') as [Hsame|Hf]; [|now right].
  rewrite Hsame. exact Hb.
Qed.

(** *** Two runs from heaps with the same shapes go the same way *)

Lemma loop_body_sim sA sB kv :
  (forall l, t_shape (st_heap sA !!! l) = t_shape (st_heap sB !!! l)) ->
  match body sA kv, body sB kv with
  | Done a, Done b =>
      (st_heap a = st_heap sA /\ st_heap b = st_heap sB) \/
      (exists l t, st_heap a = <[l := t]> (st_heap sA) /\
                   st_heap b = <[l := t]> (st_heap sB))
  | Aborted e a, Aborted e' b =>
      e = e' /\ st_heap a = st_heap sA /\ st_heap b = st_heap sB
  | _, _ => False
  end.
Proof.
  intros Hsh. destruct kv as [k v].
  unfold loop_body, try_get_child, shape_eqb, assign.
  destruct (get_child model k) as [[]|[]]; simpl; auto.
  rewrite <- Hsh. case_bool_decide; simpl; eauto.
Qed.

(** Each cell ends equal in the two runs, or is in both as it started. *)
Lemma load_weights_sim items sA sB :
  (forall l, t_shape (st_heap sA !!! l) = t_shape (st_heap sB !!! l)) ->
  status (load items sA) = status (load items sB) /\
  forall l,
    st_heap (final (load items sA)) !! l = st_heap (final (load items sB)) !! l \/
    (st_heap (final (load items sA)) !! l = st_heap sA !! l /\
     st_heap (final (load items sB)) !! l = st_heap sB !! l).
Proof.
  revert sA sB. induction items as [|kv items IH]; intros sA sB Hsh; simpl; [auto|].
  pose proof (loop_body_sim sA sB kv Hsh) as Hb.
  destruct (body sA kv) as [a|e a], (body sB kv) as [b|e' b]; try contradiction.
  - destruct Hb as [[Ha Hb]|(l0 & t & Ha & Hb)].
    + destruct (IH a b) as [Hst Hl]; [rewrite Ha, Hb; exact Hsh|].
      split; [exact Hst|]. intros l. rewrite <- Ha, <- Hb. apply Hl.
    + destruct (IH a b) as [Hst Hl].
      { intros l. rewrite Ha, Hb. destruct (decide (l0 = l)) as [->|Hne].
        - now rewrite !lookup_total_insert_eq.
        - rewrite !lookup_total_insert_ne by assumption. apply Hsh. }
      split; [exact Hst|]. intros l. destruct (Hl l) as [Heq|[HA HB]]; [now left|].
      rewrite Ha in HA. rewrite Hb in HB.
      destruct (decide (l0 = l)) as [->|Hne].
      * left. rewrite HA, HB. now rewrite !lookup_insert_eq.
      * right. rewrite lookup_insert_ne in HA, HB by assumption. auto.
  - destruct Hb as (-> & Ha & Hb). simpl. rewrite Ha, Hb. auto.
Qed.

(** *** The claims about the loop *)

(** C1, amended.  Take an item [(k, v)] that the pass reaches (the items
    [pre] before it run to their end), whose key resolves to the leaf [l],
    of the shape of [v].  Its turn of the loop stores in [l] the array cast
    to float32 and nothing else: shape of [v], element type float32, data
    the elements of [v] converted one by one.  The leaf still holds exactly
    that when the pass is over, however it ends, provided no later item
    resolves to the same leaf. *)
Theorem bound_leaf_holds_cast pre k v post s s1 l :
  load pre s = Done s1 ->
  get_child model k = Ok (PTensor l) ->
  t_shape (st_heap s !!! l) = nd_shape v ->
  (forall k' v', In (k', v') post -> get_child model k' <> Ok (PTensor l)) ->
  body s1 (k, v) =
    Done {| st_heap := <[l := Tensor_of_ndarray (astype_float32 v)]> (st_heap s1);
            st_out := st_out s1 ++ [mk_line (nd_shape v) (PTensor l) k] |} /\
  st_heap (final (load (pre ++ (k, v) :: post) s)) !! l =
    Some {| t_shape := nd_shape v; t_dtype := float32;
            t_data := Some (map to_float32 (nd_data v)) |}.
Proof.
  intros Hpre Hg Hsh Hpost.
  assert (Hb : body s1 (k, v) =
    Done {| st_heap := <[l := Tensor_of_ndarray (astype_float32 v)]> (st_heap s1);
            st_out := st_out s1 ++ [mk_line (nd_shape v) (PTensor l) k] |}).
  { apply loop_body_bound; [exact Hg|].
    pose proof (load_weights_shape pre s l) as Hp. rewrite Hpre in Hp. simpl in Hp.
    congruence. }
  split; [exact Hb|].
  rewrite load_weights_app, Hpre. simpl. rewrite Hb.
  rewrite load_weights_other by exact Hpost.
  simpl. now rewrite lookup_insert_eq.
Qed.

(** C2.  If an item's key resolves to a leaf whose declared shape differs
    from the shape of the item's tensor, the pass ends with an exception.
    When the items before it run to their end the exception is the
    [AssertionError] of [assert w.shape == v.shape], raised with the heap
    as those items left it.  No leaf changes shape in a pass: nothing is
    reshaped or broadcast. *)
Theorem shape_mismatch_aborts pre k v post s l :
  get_child model k = Ok (PTensor l) ->
  t_shape (st_heap s !!! l) <> nd_shape v ->
  (exists e, status (load (pre ++ (k, v) :: post) s) = Some e) /\
  (forall s1, load pre s = Done s1 ->
     load (pre ++ (k, v) :: post) s =
     Aborted AssertionError
       {| st_heap := st_heap s1;
          st_out := st_out s1 ++ [mk_line (nd_shape v) (PTensor l) k] |}) /\
  (forall l', t_shape (st_heap (final (load (pre ++ (k, v) :: post) s)) !!! l') =
              t_shape (st_heap s !!! l')).
Proof.
  intros Hg Hsh.
  assert (Hab : forall s1, load pre s = Done s1 ->
     load (pre ++ (k, v) :: post) s =
     Aborted AssertionError
       {| st_heap := st_heap s1;
          st_out := st_out s1 ++ [mk_line (nd_shape v) (PTensor l) k] |}).
  { intros s1 Hpre. rewrite load_weights_app, Hpre. simpl.
    rewrite (loop_body_mismatch s1 k v l); [reflexivity|exact Hg|].
    pose proof (load_weights_shape pre s l) as Hp. rewrite Hpre in Hp. simpl in Hp.
    congruence. }
  split; [|split; [exact Hab|intros l'; apply load_weights_shape]].
  destruct (load pre s) as [s1|e s1] eqn:Hpre.
  - exists AssertionError. now rewrite (Hab s1).
  - exists e. now rewrite load_weights_app, Hpre.
Qed.

(** C3.  If the lookup of an item's key fails because a segment is missing
    as an attribute, a key or an index ([AttributeError], [KeyError],
    [IndexError]), its turn of the loop raises nothing: it prints the item
    with [None] and leaves the heap alone.  The pass then ends the same way
    (returning, or with the same exception) and with the same heap as the
    pass over the checkpoint without that item. *)
Theorem unresolved_entry_is_skipped pre k v post s e :
  get_child model k = Raise e ->
  e = AttributeError \/ e = KeyError \/ e = IndexError ->
  (forall s1, body s1 (k, v) =
     Done {| st_heap := st_heap s1;
             st_out := st_out s1 ++ [mk_line (nd_shape v) PNone k] |}) /\
  status (load (pre ++ (k, v) :: post) s) = status (load (pre ++ post) s) /\
  st_heap (final (load (pre ++ (k, v) :: post) s)) =
    st_heap (final (load (pre ++ post) s)).
Proof.
  intros Hg He.
  assert (Hc : caught e = true) by (destruct He as [->|[->| ->]]; reflexivity).
  split; [intros s1; now apply loop_body_skip with e|].
  rewrite !load_weights_app. destruct (load pre s) as [s1|e1 s1]; [|auto].
  simpl. rewrite (loop_body_skip s1 k v e Hg Hc).
  apply (load_weights_out post s1).
Qed.

(** C4.  When the pass fails on a shape mismatch at an item (the items
    [pre] before it ran to their end, leaving the state [s1]), it ends with
    [AssertionError] and the heap of [s1]: neither the failing item nor any
    item after it has written anything, and a leaf that no item of [pre]
    resolves to is as it was before the pass. *)
Theorem abort_writes_nothing_later pre k v post s s1 l :
  load pre s = Done s1 ->
  get_child model k = Ok (PTensor l) ->
  t_shape (st_heap s1 !!! l) <> nd_shape v ->
  status (load (pre ++ (k, v) :: post) s) = Some AssertionError /\
  st_heap (final (load (pre ++ (k, v) :: post) s)) = st_heap s1 /\
  (forall l',
     (forall k' v', In (k', v') pre -> get_child model k' <> Ok (PTensor l')) ->
     st_heap (final (load (pre ++ (k, v) :: post) s)) !! l' = st_heap s !! l').
Proof.
  intros Hpre Hg Hsh.
  rewrite load_weights_app, Hpre. simpl.
  rewrite (loop_body_mismatch s1 k v l Hg Hsh). simpl.
  split; [reflexivity|split; [reflexivity|]].
  intros l' Hno. pose proof (load_weights_other pre s l' Hno) as Hp.
  now rewrite Hpre in Hp.
Qed.

(** C5.  Running the pass a second time with the same checkpoint, on the
    model as the first pass left it, ends the same way as the first pass
    and leaves every leaf with the contents it had after the first. *)
Theorem load_weights_idempotent items s :
  status (load items (final (load items s))) = status (load items s) /\
  st_heap (final (load items (final (load items s)))) =
    st_heap (final (load items s)).
Proof.
  destruct (load_weights_sim items s (final (load items s))) as [Hst Hl].
  { intros l. symmetry. apply load_weights_shape. }
  split; [now symmetry|].
  apply map_eq. intros l. destruct (Hl l) as [Heq|[HA HB]]; congruence.
Qed.

(** C6, amended.  What the pass prints is one line for each item it
    processed, in the order of the checkpoint, showing the shape of the
    item's tensor, the object found ([None] for a skipped item) and the
    key; when the pass returns there is a line for every item.  There is no
    summary and no count.  When the pass ends with [AssertionError] on a
    shape mismatch, the last line printed is that of the item whose tensor
    does not have the shape of its leaf. *)
Theorem output_is_one_line_per_item items s :
  exists n : nat,
    (n <= length items)%nat /\
    st_out (final (load items s)) =
      st_out s ++ map (printed get_child model) (take n items) /\
    (status (load items s) = None -> n = length items) /\
    (status (load items s) = Some AssertionError ->
     (exists k v, items !! n = Some (k, v) /\
                  get_child model k = Raise AssertionError) \/
     (exists n' k v l, n = S n' /\ items !! n' = Some (k, v) /\
                       get_child model k = Ok (PTensor l) /\
                       t_shape (st_heap s !!! l) <> nd_shape v)).
Proof.
  revert s. induction items as [|kv items IH]; intros s; simpl.
  - exists 0%nat. simpl. rewrite app_nil_r. repeat split; auto. discriminate.
  - pose proof (loop_body_prints s kv) as Hp.
    pose proof (loop_body_shape s kv) as Hshape.
    destruct (body s kv) as [s'|e s'] eqn:Hb; simpl in *.
    + destruct Hp as [[e He]|Hp]; [discriminate|].
      destruct (IH s') as (n & Hn & Hout & Hst & Hfatal).
      exists (S n). simpl. split; [lia|]. split; [|split].
      * rewrite Hout, Hp, <- app_assoc. reflexivity.
      * intros Hs. now rewrite Hst.
      * intros Hs. destruct (Hfatal Hs) as [Hraise|(n' & k & v & l & -> & Hi & Hg & Hsh)].
        { now left. }
        right. exists (S n'), k, v, l. rewrite <- Hshape. auto.
    + destruct kv as [k v]. pose proof (loop_body_aborted s k v e s' Hb) as Hab.
      destruct Hab as [(Hg & Hc & ->)|[(l & Hg & Hsh & -> & Hs')|(w & Hg & -> & Hs')]].
      * exists 0%nat. simpl. rewrite app_nil_r.
        split; [lia|]. split; [reflexivity|]. split; [discriminate|].
        intros [= ->]. left. eauto.
      * exists 1%nat. simpl. split; [lia|]. rewrite Hs'. simpl.
        split; [|split; [discriminate|]].
        { unfold printed, try_get_child. simpl. now rewrite Hg. }
        intros _. right. exists 0%nat, k, v, l. auto.
      * exists 1%nat. simpl. split; [lia|]. rewrite Hs'. simpl.
        split; [|split; discriminate].
        unfold printed, try_get_child. simpl. now rewrite Hg.
Qed.


(** C9.  An item that is bound (the pass reaches it, its key resolves to a
    leaf of its tensor's shape) puts in the leaf the elements of the
    checkpoint tensor, each converted to a number of the binary32 format,
    as many as the tensor has, with the element type float32, whatever the
    element type of the checkpoint tensor.  At the end of the pass the
    leaf holds float32 numbers, and every cell of the heap does or still
    holds the tensor it had before the pass; so if all tensors held
    float32 numbers (or no data yet) before the pass, all do after it. *)
Theorem bound_leaves_are_float32 pre k v post s s1 l :
  load pre s = Done s1 ->
  get_child model k = Ok (PTensor l) ->
  t_shape (st_heap s !!! l) = nd_shape v ->
  st_heap (final (body s1 (k, v))) !! l =
    Some {| t_shape := nd_shape v; t_dtype := float32;
            t_data := Some (map to_float32 (nd_data v)) |} /\
  Forall (fun x => is_float32 x = true) (map to_float32 (nd_data v)) /\
  length (map to_float32 (nd_data v)) = length (nd_data v) /\
  (exists t data,
     st_heap (final (load (pre ++ (k, v) :: post) s)) !! l = Some t /\
     t_dtype t = float32 /\ t_data t = Some data /\
     Forall (fun x => is_float32 x = true) data) /\
  (forall l' t,
     st_heap (final (load (pre ++ (k, v) :: post) s)) !! l' = Some t ->
     holds_float32 t \/ st_heap s !! l' = Some t) /\
  (map_Forall (fun _ t => holds_float32 t) (st_heap s) ->
   map_Forall (fun _ t => holds_float32 t)
     (st_heap (final (load (pre ++ (k, v) :: post) s)))).
Proof.
  intros Hpre Hg Hsh.
  assert (Hb : body s1 (k, v) =
    Done {| st_heap := <[l := Tensor_of_ndarray (astype_float32 v)]> (st_heap s1);
            st_out := st_out s1 ++ [mk_line (nd_shape v) (PTensor l) k] |}).
  { apply loop_body_bound; [exact Hg|].
    pose proof (load_weights_shape pre s l) as Hp. rewrite Hpre in Hp. simpl in Hp.
    congruence. }
  assert (Hall : forall l' t,
     st_heap (final (load (pre ++ (k, v) :: post) s)) !! l' = Some t ->
     holds_float32 t \/ st_heap s !! l' = Some t).
  { intros l' t Ht.
    destruct (load_weights_float32 (pre ++ (k, v) :: post) s l')
      as [Hsame|(t' & Ht' & Hf & _)].
    - right. congruence.
    - left. congruence. }
  split; [|split; [|split; [|split; [|split; [exact Hall|]]]]].
  - rewrite Hb. simpl. now rewrite lookup_insert_eq.
  - apply astype_float32_data.
  - apply length_map.
  - rewrite load_weights_app, Hpre. simpl. rewrite Hb.
    match goal with
    | |- context [load post ?s2] =>
        destruct (load_weights_float32 post s2 l)
          as [Hsame|(t & Ht & [Hd Hf] & data & Hdata)]
    end.
    + rewrite Hsame. simpl. rewrite lookup_insert_eq.
      exists (Tensor_of_ndarray (astype_float32 v)), (map to_float32 (nd_data v)).
      split; [reflexivity|]. split; [reflexivity|]. split; [reflexivity|].
      apply astype_float32_data.
    + exists t, data. split; [exact Ht|]. split; [exact Hd|].
      split; [exact Hdata|]. now apply Hf.
  - intros Hinit l' t Ht. destruct (Hall l' t Ht) as [Hf|Hs]; [exact Hf|].
    exact (Hinit l' t Hs).
Qed.

End LoaderFacts.

(** ** The resolver of section 4.1 *)

(** Every failure of the resolver is one the loop catches, and what it
    returns is a leaf. *)
Lemma exn_of_failure_caught f : caught (Utils.exn_of_failure f) = true.
Proof. destruct f; reflexivity. Qed.

Lemma get_child_raises_caught parent key e :
  Utils.get_child parent key = Raise e -> caught e = true.
Proof.
  unfold Utils.get_child. destruct (Utils.resolve _ _); [discriminate|].
  intros [= <-]. apply exn_of_failure_caught.
Qed.

Lemma get_child_returns_leaf parent key o :
  Utils.get_child parent key = Ok o -> exists l, o = PTensor l.
Proof.
  unfold Utils.get_child.
  generalize (map segment_of (split_dot key)). intros segs. revert parent.
  induction segs as [|seg segs IH]; intros parent; simpl.
  - destruct parent; try discriminate. intros [= <-]. eauto.
  - destruct (Utils.child parent seg); [apply IH|discriminate].
Qed.

(** The keys of the text encoder resolve to its tensors; a layer past the
    twelfth, a key that a dict does not have and an attribute that an
    instance does not have are the three lookup failures. *)
Example get_child_final_layer_norm :
  Utils.get_child main_model Samples.norm_weight = Ok (PTensor 196%positive) /\
  Utils.get_child main_model Samples.norm_bias = Ok (PTensor 197%positive) /\
  main_heap !! 196%positive = Some (Tensor_placeholder [768]).
Proof. repeat split; vm_compute; reflexivity. Qed.

Example get_child_lookup_failures :
  Utils.get_child main_model
    "cond_stage_model.transformer.text_model.encoder.layers.12.mlp.fc1.weight" =
    Raise IndexError /\
  Utils.get_child main_model
    "cond_stage_model.transformer.text_model.embeddings.token_embedding.bias" =
    Raise KeyError /\
  Utils.get_child main_model
    "cond_stage_model.transformer.text_model.encoder.layers.11.mlp.fc3.weight" =
    Raise AttributeError /\
  Utils.get_child main_model
    "cond_stage_model.transformer.text_model.encoder.layers.11.mlp.fc2.weight" =
    Ok (PTensor 192%positive).
Proof. repeat split; vm_compute; reflexivity. Qed.

(** ** The model of [__main__] *)

Lemma StableDiffusion_attrs st :
  exists c,
    fst (StableDiffusion st) = PInstance "StableDiffusion" [("cond_stage_model", c)].
Proof.
  unfold StableDiffusion, init_bind, init_ret.
  destruct (CLIPTextTransformer st) as [tm st']. simpl. eauto.
Qed.

Lemma get_child_first_missing cls attrs name rest :
  is_numeral name = false ->
  assoc name attrs = None ->
  split_dot (name ++ "." ++ rest)%string = name :: split_dot rest ->
  Utils.get_child (PInstance cls attrs) (name ++ "." ++ rest)%string =
  Raise AttributeError.
Proof.
  intros Hnum Hassoc Hsplit. unfold Utils.get_child. rewrite Hsplit. simpl.
  unfold segment_of at 1. rewrite Hnum. simpl. now rewrite Hassoc.
Qed.

(** The 197 tensors of the model are placeholders of type float32. *)
Lemma main_heap_float32 : map_Forall (fun _ t => t_dtype t = float32) main_heap.
Proof.
  apply (bool_decide_unpack _). vm_compute. exact I.
Qed.

(** C10.  The object [StableDiffusion()] has the single attribute
    [cond_stage_model].  Hence [StableDiffusion.__call__] raises
    [AttributeError] at [self.model], for every input, every state of the
    generator and whatever the tensor library does; and in the loop every
    key that starts with [model.] or [first_stage_model.] is printed with
    [None] and skipped, the heap unchanged. *)
Theorem StableDiffusion_has_no_model st :
  let self := fst (StableDiffusion st) in
  (exists c, self = PInstance "StableDiffusion" [("cond_stage_model", c)]) /\
  (forall (T rng : Type) uniform call_object (x : T) (g : rng),
     fst (StableDiffusion_call T rng uniform call_object self x g) =
     Raise AttributeError) /\
  (forall rest v s,
     loop_body Utils.get_child self s (("model." ++ rest)%string, v) =
       Done {| st_heap := st_heap s;
               st_out := st_out s ++
                 [mk_line (nd_shape v) PNone ("model." ++ rest)%string] |} /\
     loop_body Utils.get_child self s (("first_stage_model." ++ rest)%string, v) =
       Done {| st_heap := st_heap s;
               st_out := st_out s ++
                 [mk_line (nd_shape v) PNone ("first_stage_model." ++ rest)%string] |}).
Proof.
  intros self. destruct (StableDiffusion_attrs st) as [c Hc]. fold self in Hc.
  split; [eauto|]. rewrite Hc. split.
  - intros T rng uniform call_object x g. unfold StableDiffusion_call.
    destruct (uniform _ g) as [context g']. reflexivity.
  - intros rest v s. split.
    + apply loop_body_skip with AttributeError; [|reflexivity].
      apply (get_child_first_missing _ _ "model" rest); reflexivity.
    + apply loop_body_skip with AttributeError; [|reflexivity].
      apply (get_child_first_missing _ _ "first_stage_model" rest); reflexivity.
Qed.

(** ** The claims at the model of [__main__] *)

Import Samples.

(** C1 as it was stated fails when the pass is cut short: in
    [mismatch_first] the second item resolves to a leaf of its shape, the
    first item fails the assertion, and after the pass the leaf of the
    second item does not hold its tensor. *)
Lemma mismatch_first_leaves_bias_unbound :
  let v := vector 768 float64 tenth in
  In (norm_bias, v) mismatch_first /\
  Utils.get_child main_model norm_bias = Ok (PTensor 197%positive) /\
  t_shape (st_heap main_state !!! 197%positive) = nd_shape v /\
  status (load_weights Utils.get_child main_model mismatch_first main_state) =
    Some AssertionError /\
  st_heap (final (load_weights Utils.get_child main_model mismatch_first main_state))
    !! 197%positive <> Some (Tensor_of_ndarray (astype_float32 v)).
Proof.
  cbv zeta. split; [right; left; reflexivity|].
  split; [vm_compute; reflexivity|]. split; [vm_compute; reflexivity|].
  split; [vm_compute; reflexivity|]. vm_compute. discriminate.
Qed.

(** Two keys can resolve to one leaf: a field of a named tuple is reached
    by its name and by its position, and the later item wins. *)
Example later_alias_overwrites :
  let by_position :=
    "cond_stage_model.0.text_model.final_layer_norm.weight"%string in
  Utils.get_child main_model by_position = Utils.get_child main_model norm_weight /\
  t_data (st_heap (final (load_weights Utils.get_child main_model
            [(norm_weight, vector 768 float64 tenth);
             (by_position, vector 768 float32 (SInt 0))] main_state))
          !!! 196%positive) =
  Some (nd_data (astype_float32 (vector 768 float32 (SInt 0)))).
Proof. cbv zeta. split; vm_compute; reflexivity. Qed.

Lemma bound_leaf_holds_cast_witness :
  let v := vector 768 float64 tenth in
  let skipped := (unet_weight, vector 320 float32 (SInt 0)) in
  let s1 := {| st_heap := main_heap;
               st_out := [mk_line [320] PNone unet_weight] |} in
  load_weights Utils.get_child main_model [skipped] main_state = Done s1 /\
  Utils.get_child main_model norm_weight = Ok (PTensor 196%positive) /\
  t_shape (st_heap main_state !!! 196%positive) = nd_shape v /\
  st_heap (final (load_weights Utils.get_child main_model
                    ([skipped] ++ (norm_weight, v) :: [skipped]) main_state))
    !! 196%positive =
  Some {| t_shape := nd_shape v; t_dtype := float32;
          t_data := Some (map to_float32 (nd_data v)) |}.
Proof.
  intros v skipped s1.
  assert (Hpre : load_weights Utils.get_child main_model [skipped] main_state = Done s1)
    by (vm_compute; reflexivity).
  assert (Hg : Utils.get_child main_model norm_weight = Ok (PTensor 196%positive))
    by (vm_compute; reflexivity).
  assert (Hsh : t_shape (st_heap main_state !!! 196%positive) = nd_shape v)
    by (vm_compute; reflexivity).
  assert (Hpost : forall k' v', In (k', v') [skipped] ->
            Utils.get_child main_model k' <> Ok (PTensor 196%positive)).
  { intros k' v' [[= <- <-]|[]]. vm_compute. discriminate. }
  split; [exact Hpre|]. split; [exact Hg|]. split; [exact Hsh|].
  exact (proj2 (bound_leaf_holds_cast Utils.get_child main_model
                  [skipped] norm_weight v [skipped] main_state s1 196%positive
                  Hpre Hg Hsh Hpost)).
Defined.

Lemma shape_mismatch_aborts_witness :
  let v := vector 1024 float64 tenth in
  let pre := [(unet_weight, vector 320 float32 (SInt 0))] in
  let post := [(norm_bias, vector 768 float64 tenth)] in
  Utils.get_child main_model norm_weight = Ok (PTensor 196%positive) /\
  t_shape (st_heap main_state !!! 196%positive) <> nd_shape v /\
  status (load_weights Utils.get_child main_model
            (pre ++ (norm_weight, v) :: post) main_state) = Some AssertionError.
Proof.
  intros v pre post.
  assert (Hg : Utils.get_child main_model norm_weight = Ok (PTensor 196%positive))
    by (vm_compute; reflexivity).
  assert (Hsh : t_shape (st_heap main_state !!! 196%positive) <> nd_shape v)
    by (vm_compute; discriminate).
  split; [exact Hg|]. split; [exact Hsh|].
  destruct (shape_mismatch_aborts Utils.get_child main_model pre norm_weight v
              post main_state 196%positive Hg Hsh) as (_ & Hab & _).
  rewrite (Hab _ eq_refl). reflexivity.
Defined.

Lemma unresolved_entry_is_skipped_witness :
  let v := vector 320 float32 (SInt 0) in
  let pre := [(norm_weight, vector 768 float64 tenth)] in
  let post := [(norm_bias, vector 768 float64 tenth)] in
  Utils.get_child main_model unet_weight = Raise AttributeError /\
  status (load_weights Utils.get_child main_model
            (pre ++ (unet_weight, v) :: post) main_state) =
    status (load_weights Utils.get_child main_model (pre ++ post) main_state) /\
  st_heap (final (load_weights Utils.get_child main_model
                    (pre ++ (unet_weight, v) :: post) main_state)) =
    st_heap (final (load_weights Utils.get_child main_model (pre ++ post) main_state)).
Proof.
  intros v pre post.
  assert (Hg : Utils.get_child main_model unet_weight = Raise AttributeError)
    by (vm_compute; reflexivity).
  split; [exact Hg|].
  exact (proj2 (unresolved_entry_is_skipped Utils.get_child main_model
                  pre unet_weight v post main_state AttributeError
                  Hg (or_introl eq_refl))).
Defined.

Lemma abort_writes_nothing_later_witness :
  let bias := vector 768 float64 tenth in
  let v := vector 1024 float64 tenth in
  let pre := [(norm_bias, bias)] in
  let post := [(unet_weight, vector 320 float32 (SInt 0)); (norm_weight, bias)] in
  let s1 := {| st_heap := <[197%positive := Tensor_of_ndarray (astype_float32 bias)]>
                            main_heap;
               st_out := [mk_line [768] (PTensor 197%positive) norm_bias] |} in
  load_weights Utils.get_child main_model pre main_state = Done s1 /\
  Utils.get_child main_model norm_weight = Ok (PTensor 196%positive) /\
  t_shape (st_heap s1 !!! 196%positive) <> nd_shape v /\
  status (load_weights Utils.get_child main_model
            (pre ++ (norm_weight, v) :: post) main_state) = Some AssertionError /\
  st_heap (final (load_weights Utils.get_child main_model
                    (pre ++ (norm_weight, v) :: post) main_state)) = st_heap s1.
Proof.
  intros bias v pre post s1.
  assert (Hpre : load_weights Utils.get_child main_model pre main_state = Done s1)
    by (vm_compute; reflexivity).
  assert (Hg : Utils.get_child main_model norm_weight = Ok (PTensor 196%positive))
    by (vm_compute; reflexivity).
  assert (Hsh : t_shape (st_heap s1 !!! 196%positive) <> nd_shape v)
    by (vm_compute; discriminate).
  split; [exact Hpre|]. split; [exact Hg|]. split; [exact Hsh|].
  destruct (abort_writes_nothing_later Utils.get_child main_model pre norm_weight v
              post main_state s1 196%positive Hpre Hg Hsh) as (Hst & Hheap & _).
  split; [exact Hst|exact Hheap].
Defined.

(** C6 as it was stated fails on a checkpoint with one item that binds and
    one that is skipped: the whole output is the two lines of the two
    items, and no line of it is a summary. *)
Lemma bound_and_skipped_prints_two_lines :
  let out := st_out (final (load_weights Utils.get_child main_model
                              bound_and_skipped main_state)) in
  out = [mk_line [768] (PTensor 196%positive) norm_weight;
         mk_line [320] PNone unet_weight] /\
  ~ (exists ln, In ln out /\ summary_line bound_and_skipped ln).
Proof.
  cbv zeta.
  assert (Hout : st_out (final (load_weights Utils.get_child main_model
                                  bound_and_skipped main_state)) =
                 [mk_line [768] (PTensor 196%positive) norm_weight;
                  mk_line [320] PNone unet_weight])
    by (vm_compute; reflexivity).
  rewrite Hout. split; [reflexivity|].
  intros (ln & Hin & Hsum). unfold summary_line, bound_and_skipped in Hsum.
  destruct Hin as [<-|[<-|[]]].
  - apply (Hsum (norm_weight, vector 768 float64 tenth)); [now left|reflexivity].
  - apply (Hsum (unet_weight, vector 320 float32 (SInt 0)));
      [right; now left|reflexivity].
Qed.



Lemma bound_leaves_are_float32_witness :
  let v := vector 768 int64 (SInt 7) in
  let post := [(unet_weight, vector 320 float64 tenth)] in
  load_weights Utils.get_child main_model [] main_state = Done main_state /\
  Utils.get_child main_model norm_bias = Ok (PTensor 197%positive) /\
  t_shape (st_heap main_state !!! 197%positive) = nd_shape v /\
  st_heap (final (loop_body Utils.get_child main_model main_state (norm_bias, v)))
    !! 197%positive =
    Some {| t_shape := nd_shape v; t_dtype := float32;
            t_data := Some (map to_float32 (nd_data v)) |} /\
  Forall (fun x => is_float32 x = true) (map to_float32 (nd_data v)).
Proof.
  intros v post.
  assert (Hg : Utils.get_child main_model norm_bias = Ok (PTensor 197%positive))
    by (vm_compute; reflexivity).
  assert (Hsh : t_shape (st_heap main_state !!! 197%positive) = nd_shape v)
    by (vm_compute; reflexivity).
  split; [reflexivity|]. split; [exact Hg|]. split; [exact Hsh|].
  pose proof (bound_leaves_are_float32 Utils.get_child main_model
                [] norm_bias v post main_state main_state 197%positive
                eq_refl Hg Hsh) as H.
  split; [exact (proj1 H)|exact (proj1 (proj2 H))].
Defined.

(** * More of the file *)

Open Scope Z_scope.

(** An exception, once raised, is the result of the rest of a loop. *)
Lemma fold_bind_raise {A B : Type} (k : B -> A -> result B) (l : list A) (e : exn) :
  fold_left (fun y a => y ≫= fun x => k x a) l (Raise e) = Raise e.
Proof. induction l as [|a l IH]; simpl; auto. Qed.

Lemma fold_bind_cons {A B : Type} (k : B -> A -> result B) (a : A) (l : list A) (x : B) :
  fold_left (fun y a => y ≫= fun x => k x a) (a :: l) (Ok x) =
  k x a ≫= fun x' => fold_left (fun y a => y ≫= fun x => k x a) l (Ok x').
Proof.
  cbn [fold_left]. change (Ok x ≫= fun x0 => k x0 a) with (k x a).
  destruct (k x a) as [x'|e]; [reflexivity|]. apply fold_bind_raise.
Qed.

Section SkipConnections.

Variable T : Type.
Variable cat : T -> T -> result T.

Lemma pop_nil : pop T [] = Raise IndexError.
Proof. reflexivity. Qed.

Lemma pop_snoc (l : list T) (y : T) : pop T (l ++ [y]) = Ok (y, l).
Proof. unfold pop. rewrite rev_unit. simpl. now rewrite rev_involutive. Qed.

Lemma last_cons_default (l : list T) (a d d' : T) :
  List.last (a :: l) d = List.last (a :: l) d'.
Proof.
  revert a. induction l as [|b l IH]; intros a; [reflexivity|].
  change (List.last (b :: l) d = List.last (b :: l) d'). apply IH.
Qed.

(** The loop over the input block lists appends one tensor for each list,
    the running tensor after it, and stops at the first exception. *)
Lemma run_input_blocks_saved emb context bs (x : T) saved :
  run_input_blocks T emb context bs x saved =
  outputs_after T emb context bs x ≫= fun l => Ok (List.last l x, saved ++ l).
Proof.
  revert x saved. induction bs as [|b bs IH]; intros x saved; cbn.
  - now rewrite app_nil_r.
  - destruct (run_blocks T emb context x b) as [x'|e]; cbn; [|reflexivity].
    rewrite IH. destruct (outputs_after T emb context bs x') as [l|e]; cbn;
      [|reflexivity].
    rewrite <- app_assoc. cbn. do 2 f_equal.
    destruct l as [|a l]; [reflexivity|]. apply last_cons_default.
Qed.

Lemma outputs_after_length emb context bs (x : T) l :
  outputs_after T emb context bs x = Ok l -> length l = length bs.
Proof.
  revert x l. induction bs as [|b bs IH]; intros x l; cbn.
  - now intros [= <-].
  - destruct (run_blocks T emb context x b) as [x'|e]; cbn; [|discriminate].
    destruct (outputs_after T emb context bs x') as [l'|e] eqn:E; cbn; [|discriminate].
    intros [= <-]. cbn. f_equal. now apply (IH x').
Qed.

(** The loop over the output block lists takes the saved tensors from the
    last one back; when they run out it raises [IndexError], after the
    lists that had one have run. *)
Lemma run_output_blocks_zip emb context bs (x : T) saved :
  run_output_blocks T cat emb context bs x saved =
  fold_left (fun acc p => acc ≫= fun y =>
               run_output_block T cat emb context (fst p) y (snd p))
    (zip bs (rev saved)) (Ok x) ≫= fun x3 =>
  if (length bs <=? length saved)%nat then Ok x3 else Raise IndexError.
Proof.
  revert x saved. induction bs as [|b bs IH]; intros x saved; [reflexivity|].
  cbn [run_output_blocks].
  destruct saved as [|y l _] using rev_ind.
  - reflexivity.
  - rewrite pop_snoc, rev_unit, length_app. cbn [zip zip_with].
    rewrite (fold_bind_cons
               (fun y p => run_output_block T cat emb context (fst p) y (snd p))).
    cbn [mbind result_bind fst snd length].
    destruct (run_output_block T cat emb context b x y) as [x'|e]; [|reflexivity].
    cbn [mbind result_bind]. rewrite IH. replace (length l + 1)%nat with (S (length l)) by lia.
    reflexivity.
Qed.

(** X1.  [UNetModel.__call__] uses the saved tensors last saved first: the
    first list of output blocks runs on the running tensor joined with the
    tensor saved after the last list of input blocks, the second with the
    one saved before, and so on.  [saved_inputs.pop()] raises [IndexError]
    when the model has more lists of output blocks than of input blocks,
    and only then; it does so after the output lists that had a saved
    tensor have run.  An exception raised before that by a layer, a block
    or [cat] is the result of the call. *)
Theorem UNetModel_forward_skip_connections (self : UNetModel T)
    (t_emb x : T) (context : option T) :
  UNetModel_forward T cat self t_emb x context =
  (emb ← sequential T t_emb (time_embed T self);
   saved ← outputs_after T emb context (input_blocks T self) x;
   x2 ← run_blocks T emb context (List.last saved x) (middle_block T self);
   x3 ← fold_left (fun acc p => acc ≫= fun y =>
                     run_output_block T cat emb context (fst p) y (snd p))
          (zip (output_blocks T self) (rev saved)) (Ok x2);
   if (length (output_blocks T self) <=? length (input_blocks T self))%nat
   then sequential T x3 (out T self)
   else Raise IndexError).
Proof.
  unfold UNetModel_forward.
  destruct (sequential T t_emb (time_embed T self)) as [emb|e]; [|reflexivity].
  cbn [mbind result_bind]. rewrite run_input_blocks_saved.
  destruct (outputs_after T emb context (input_blocks T self) x) as [saved|e] eqn:E;
    [|reflexivity].
  cbn [mbind result_bind app].
  destruct (run_blocks T emb context (List.last saved x) (middle_block T self))
    as [x2|e]; [|reflexivity].
  cbn [mbind result_bind]. rewrite run_output_blocks_zip.
  rewrite (outputs_after_length _ _ _ _ _ E).
  destruct (fold_left _ _ (Ok x2)) as [x3|e]; [|reflexivity].
  cbn [mbind result_bind]. destruct (_ <=? _)%nat; reflexivity.
Qed.

End SkipConnections.

Section Dispatch.

Variable T : Type.
Variable cat : T -> T -> result T.

Lemma run_blocks_without (skip : block T -> bool) emb emb' context context'
    (b : list (block T)) (x : T) :
  (forall bb y, skip bb = false -> run T emb context y bb = run T emb' context' y bb) ->
  forallb (fun bb => negb (skip bb)) b = true ->
  run_blocks T emb context x b = run_blocks T emb' context' x b.
Proof.
  intros Hrun. unfold run_blocks. generalize (Ok x). 
  induction b as [|bb b IH]; intros r; simpl; [reflexivity|].
  intros [Hbb Hb]%andb_prop. rewrite <- (IH _ Hb). f_equal.
  destruct r as [y|e]; [|reflexivity]. cbn.
  apply Hrun. now apply negb_true_iff.
Qed.

Lemma forallb_concat {A : Type} (p : A -> bool) (ls : list (list A)) :
  forallb p (concat ls) = forallb (forallb p) ls.
Proof.
  induction ls as [|l ls IH]; simpl; [reflexivity|].
  now rewrite forallb_app, IH.
Qed.

Lemma run_input_blocks_without (skip : block T -> bool) emb emb' context context'
    (bs : list (list (block T))) (x : T) saved :
  (forall bb y, skip bb = false -> run T emb context y bb = run T emb' context' y bb) ->
  forallb (forallb (fun bb => negb (skip bb))) bs = true ->
  run_input_blocks T emb context bs x saved =
  run_input_blocks T emb' context' bs x saved.
Proof.
  intros Hrun. revert x saved.
  induction bs as [|b bs IH]; intros x saved; simpl; [reflexivity|].
  intros [Hb Hbs]%andb_prop.
  rewrite (run_blocks_without skip emb emb' context context' b x Hrun Hb).
  destruct (run_blocks T emb' context' x b) as [x'|e]; cbn; [|reflexivity].
  now apply IH.
Qed.

Lemma run_output_blocks_without (skip : block T -> bool) emb emb' context context'
    (bs : list (list (block T))) (x : T) saved :
  (forall bb y, skip bb = false -> run T emb context y bb = run T emb' context' y bb) ->
  forallb (forallb (fun bb => negb (skip bb))) bs = true ->
  run_output_blocks T cat emb context bs x saved =
  run_output_blocks T cat emb' context' bs x saved.
Proof.
  intros Hrun. revert x saved.
  induction bs as [|b bs IH]; intros x saved; simpl; [reflexivity|].
  intros [Hb Hbs]%andb_prop.
  destruct (pop T saved) as [[y saved']|e]; cbn; [|reflexivity].
  unfold run_output_block.
  destruct (cat x y) as [z|e]; cbn; [|reflexivity].
  rewrite (run_blocks_without skip emb emb' context context' b _ Hrun Hb).
  destruct (run_blocks T emb' context' z b) as [x'|e]; cbn; [|reflexivity].
  now apply IH.
Qed.

Lemma forward_without (skip : block T -> bool) (self : UNetModel T)
    emb emb' context context' (x : T) :
  (forall bb y, skip bb = false -> run T emb context y bb = run T emb' context' y bb) ->
  forallb (fun bb => negb (skip bb)) (blocks_of self) = true ->
  ('(x1, saved) ← run_input_blocks T emb context (input_blocks T self) x [];
   x2 ← run_blocks T emb context x1 (middle_block T self);
   x3 ← run_output_blocks T cat emb context (output_blocks T self) x2 saved;
   sequential T x3 (out T self)) =
  ('(x1, saved) ← run_input_blocks T emb' context' (input_blocks T self) x [];
   x2 ← run_blocks T emb' context' x1 (middle_block T self);
   x3 ← run_output_blocks T cat emb' context' (output_blocks T self) x2 saved;
   sequential T x3 (out T self)).
Proof.
  intros Hrun. unfold blocks_of. rewrite !forallb_app, !forallb_concat.
  intros [Hin [Hmid Hout]%andb_prop]%andb_prop.
  rewrite (run_input_blocks_without skip emb emb' context context' _ x [] Hrun Hin).
  destruct (run_input_blocks T emb' context' _ x []) as [[x1 saved]|e]; cbn;
    [|reflexivity].
  rewrite (run_blocks_without skip emb emb' context context' _ x1 Hrun Hmid).
  destruct (run_blocks T emb' context' x1 _) as [x2|e]; cbn; [|reflexivity].
  now rewrite (run_output_blocks_without skip emb emb' context context' _ x2 saved
                 Hrun Hout).
Qed.

(** X2.  [run] passes [context] to the members that are
    [SpatialTransformer]s and to no other: a model with no
    [SpatialTransformer] in its block lists returns the same result for
    every context. *)
Theorem UNetModel_context_reaches_transformers_only (self : UNetModel T)
    (t_emb x : T) (context context' : option T) :
  forallb (fun bb => negb (is_SpatialTransformer bb)) (blocks_of self) = true ->
  UNetModel_forward T cat self t_emb x context =
  UNetModel_forward T cat self t_emb x context'.
Proof.
  intros Hno. unfold UNetModel_forward.
  destruct (sequential T t_emb (time_embed T self)) as [emb|e]; [|reflexivity].
  cbn [mbind result_bind].
  apply (forward_without is_SpatialTransformer self emb emb context context' x);
    [|exact Hno].
  intros [] y Hbb; try reflexivity. discriminate.
Qed.


End Dispatch.

(** The model [UNetModel.__init__] builds has as many lists of output
    blocks as of input blocks: [saved_inputs.pop()] does not raise in
    it. *)
Lemma UNetModel_init_lists (T : Type) li si co no re sp dn up :
  length (output_blocks T (UNetModel_init T li si co no re sp dn up)) =
  length (input_blocks T (UNetModel_init T li si co no re sp dn up)).
Proof. reflexivity. Qed.

Lemma UNetModel_context_reaches_transformers_only_witness :
  let fails := fun x : Z => if x =? 0 then Raise TypeError else Ok (x + 1) in
  let self := {| time_embed := [fails];
                 input_blocks :=
                   [[Layer fails; ResBlock (fun x emb => Ok (x + emb))];
                    [Layer (fun x => Ok (2 * x))]];
                 middle_block := [ResBlock (fun x emb => Ok (x * emb))];
                 output_blocks := [[Layer fails]; [ResBlock (fun x emb => Ok (x + emb))]];
                 out := [fun x => Ok (- x)] |} in
  let cat := fun x y : Z => Ok (x + y) in
  forallb (fun bb => negb (is_SpatialTransformer bb)) (blocks_of self) = true /\
  UNetModel_forward Z cat self 3 5 None = UNetModel_forward Z cat self 3 5 (Some 7).
Proof.
  intros fails self cat.
  assert (H : forallb (fun bb => negb (is_SpatialTransformer bb)) (blocks_of self) = true)
    by reflexivity.
  split; [exact H|].
  exact (UNetModel_context_reaches_transformers_only Z cat self 3 5 None (Some 7) H).
Defined.


(** *** numpy indices *)

Lemma np_index_in_range (n : nat) (x : Z) :
  (- Z.of_nat n <=? x) && (x <? Z.of_nat n) = true ->
  np_index n x = Ok (Z.to_nat (x mod Z.of_nat n)) /\
  (Z.to_nat (x mod Z.of_nat n) < n)%nat.
Proof.
  intros [Hlo Hhi]%andb_prop. apply Z.leb_le in Hlo. apply Z.ltb_lt in Hhi.
  unfold np_index.
  destruct (0 <=? x) eqn:H0; [apply Z.leb_le in H0|apply Z.leb_gt in H0].
  - rewrite (proj2 (Z.ltb_lt _ _) Hhi). simpl.
    rewrite Z.mod_small by lia. split; [reflexivity|lia].
  - simpl. rewrite (proj2 (Z.leb_le _ _) Hlo), (proj2 (Z.ltb_lt _ _) H0). simpl.
    replace (x mod Z.of_nat n) with (x + Z.of_nat n).
    + split; [reflexivity|lia].
    + apply Z.mod_unique with (-1); lia.
Qed.

Lemma np_index_out_of_range (n : nat) (x : Z) :
  (- Z.of_nat n <=? x) && (x <? Z.of_nat n) = false ->
  np_index n x = Raise IndexError.
Proof.
  intros H. unfold np_index.
  destruct (0 <=? x) eqn:H0, (x <? Z.of_nat n) eqn:H1,
           (- Z.of_nat n <=? x) eqn:H2, (x <? 0) eqn:H3;
    simpl in *; try reflexivity; try discriminate; lia.
Qed.

Lemma fill_one_hot_rows (width : nat) (ids : list Z) (filled : list (list scalar)) :
  fill_one_hot (filled ++ np_zeros (length ids) width) (length filled) ids =
  if forallb (index_ok width) ids
  then Ok (filled ++ map (one_hot_row width) ids)
  else Raise IndexError.
Proof.
  revert filled. induction ids as [|x ids IH]; intros filled.
  - reflexivity.
  - cbn [fill_one_hot length np_zeros replicate forallb map].
    rewrite lookup_app_r by lia. rewrite Nat.sub_diag. cbn [lookup list_lookup].
    rewrite length_replicate.
    destruct (index_ok width x) eqn:Hx; unfold index_ok in Hx.
    + destruct (np_index_in_range width x Hx) as [-> _]. simpl.
      rewrite insert_app_r_alt by lia. rewrite Nat.sub_diag. simpl.
      specialize (IH (filled ++ [one_hot_row width x])).
      rewrite length_app, <- app_assoc in IH. simpl in IH.
      replace (S (length filled)) with (length filled + 1)%nat by lia.
      unfold np_zeros in IH. fold (one_hot_row width x). rewrite IH.
      destruct (forallb _ ids); [|reflexivity].
      now rewrite <- app_assoc.
    + now rewrite (np_index_out_of_range width x Hx).
Qed.

(** The loop that fills the array succeeds when every id is an index of
    the last axis, and then row [i] is the row of the [i]-th id. *)
Lemma one_hot_rows (width : nat) (ids : list Z) :
  one_hot width ids =
  if forallb (index_ok width) ids
  then Ok (map (one_hot_row width) ids)
  else Raise IndexError.
Proof. exact (fill_one_hot_rows width ids []). Qed.

Lemma range_index_ok (width n : nat) :
  forallb (index_ok width) (range n) = (n <=? width)%nat.
Proof.
  unfold range. induction n as [|n IH]; [reflexivity|].
  rewrite seq_S, map_app, forallb_app, IH.
  cbn [map forallb Nat.add]. rewrite andb_true_r. unfold index_ok.
  destruct (Nat.leb_spec (S n) width) as [Hle|Hgt].
  - rewrite (proj2 (Nat.leb_le n width)) by lia.
    rewrite (proj2 (Z.leb_le _ _)) by lia.
    rewrite (proj2 (Z.ltb_lt _ _)) by lia. reflexivity.
  - rewrite (proj2 (Z.ltb_ge _ _)) by lia.
    now rewrite !andb_false_r.
Qed.

Lemma range_length (n : nat) : length (range n) = n.
Proof. unfold range. now rewrite length_map, length_seq. Qed.

Section TextModelFacts.

Variable T : Type.
Variable Tensor_of_rows : list (list scalar) -> result T.
Variable matmul : T -> T -> result T.
Variable add : T -> T -> result T.

(** X4.  [CLIPTextEmbeddings.__call__] raises [IndexError] in its two
    loops, before any tensor is made, exactly when some token id is
    outside [-49408, 49408) or some position id outside [-77, 77).
    Otherwise the two arrays it hands to the tensor library have one row
    for each id, all zeros but a one at the id, a negative id counting
    from the end; what comes of them, a tensor or an exception, is the
    library's doing. *)
Theorem CLIPTextEmbeddings_call_index_errors (token_weight position_weight : T)
    (input_ids position_ids : list Z) :
  CLIPTextEmbeddings_call T Tensor_of_rows matmul add
    token_weight position_weight input_ids position_ids =
  if forallb (index_ok vocabulary) input_ids &&
     forallb (index_ok max_positions) position_ids
  then (a ← Tensor_of_rows (map (one_hot_row vocabulary) input_ids);
        inputs_embeds ← matmul a token_weight;
        b ← Tensor_of_rows (map (one_hot_row max_positions) position_ids);
        position_embeddings ← matmul b position_weight;
        add inputs_embeds position_embeddings)
  else Raise IndexError.
Proof.
  unfold CLIPTextEmbeddings_call. rewrite !one_hot_rows.
  destruct (forallb _ input_ids); [|reflexivity].
  destruct (forallb _ position_ids); reflexivity.
Qed.

(** X5.  [CLIPTextTransformer.__call__] numbers the positions 0, 1, 2, ...
    in order.  It raises [IndexError] before any tensor is made exactly
    when some token id is outside [-49408, 49408) or there are more than
    77 tokens; otherwise its result is that of the tensor library on the
    two arrays, then of the encoder, then of the final layer norm, the
    first exception among them if there is one. *)
Theorem CLIPTextTransformer_call_index_errors (token_weight position_weight : T)
    (encoder final_layer_norm : T -> result T) (input_ids : list Z) :
  CLIPTextTransformer_call T Tensor_of_rows matmul add
    token_weight position_weight encoder final_layer_norm input_ids =
  if forallb (index_ok vocabulary) input_ids &&
     (length input_ids <=? max_positions)%nat
  then (a ← Tensor_of_rows (map (one_hot_row vocabulary) input_ids);
        inputs_embeds ← matmul a token_weight;
        b ← Tensor_of_rows
              (map (one_hot_row max_positions) (range (length input_ids)));
        position_embeddings ← matmul b position_weight;
        x ← add inputs_embeds position_embeddings;
        x ← encoder x;
        final_layer_norm x)
  else Raise IndexError.
Proof.
  unfold CLIPTextTransformer_call, CLIPTextEmbeddings_call.
  rewrite !one_hot_rows, range_index_ok.
  destruct (forallb _ input_ids); [|reflexivity].
  destruct (_ <=? _)%nat; [|reflexivity].
  cbn [andb mbind result_bind].
  destruct (Tensor_of_rows (map (one_hot_row vocabulary) input_ids)) as [a|e];
    [|reflexivity].
  cbn [mbind result_bind].
  destruct (matmul a token_weight) as [ie|e]; [|reflexivity].
  cbn [mbind result_bind].
  destruct (Tensor_of_rows _) as [b|e]; [|reflexivity]. cbn [mbind result_bind].
  destruct (matmul b position_weight) as [pe|e]; reflexivity.
Qed.

End TextModelFacts.

Lemma forallb_pointwise {A : Type} (f g : A -> bool) (l : list A) :
  (forall x, f x = g x) -> forallb f l = forallb g l.
Proof. intros H. induction l as [|x l IH]; simpl; [reflexivity|]. now rewrite H, IH. Qed.

Section Completion.

Variable get_child : pyobj -> string -> result pyobj.
Variable model : pyobj.

#[local] Abbreviation body := (loop_body get_child model).
#[local] Abbreviation load := (load_weights get_child model).
#[local] Abbreviation ok := (passes get_child model).

Lemma passes_shapes h h' kv :
  (forall l, t_shape (h !!! l) = t_shape (h' !!! l)) -> ok h kv = ok h' kv.
Proof.
  intros Hsh. unfold passes.
  destruct (try_get_child get_child model (fst kv)) as [[]|]; try reflexivity.
  now rewrite Hsh.
Qed.

Lemma loop_body_passes s kv :
  status (body s kv) = None <-> ok (st_heap s) kv = true.
Proof.
  destruct kv as [k v]. unfold passes, loop_body. simpl.
  destruct (try_get_child get_child model k) as [[]|]; simpl;
    try (split; [discriminate|discriminate]); try tauto.
  destruct (shape_eqb _ _); simpl; split; auto; discriminate.
Qed.

(** The pass returns when every item passes, read in the heap it starts
    from. *)
Lemma load_weights_status_passes items s :
  status (load items s) = None <-> forallb (ok (st_heap s)) items = true.
Proof.
  revert s. induction items as [|kv items IH]; intros s; simpl; [tauto|].
  pose proof (loop_body_passes s kv) as Hb.
  pose proof (loop_body_shape get_child model s kv) as Hsh.
  destruct (body s kv) as [s'|e s']; simpl in *.
  - rewrite (proj1 Hb eq_refl). simpl. rewrite IH.
    rewrite (forallb_pointwise (ok (st_heap s')) (ok (st_heap s))); [tauto|].
    intros kv'. now apply passes_shapes.
  - destruct (ok (st_heap s) kv); simpl; [|split; discriminate].
    destruct Hb as [_ Hb]. specialize (Hb eq_refl). discriminate.
Qed.


(** X6.  The pass returns exactly when every item of the checkpoint, taken
    alone against the shapes the model has before the pass, either finds
    [None] (also through the [except] clause) or finds a tensor of the
    shape of its array.  Otherwise it stops at the first item that does
    not, with the heap as the items before that one left it: what earlier
    items wrote never makes a later item fail or succeed. *)
Theorem load_weights_stops_at_first_failure items s :
  (status (load items s) = None <-> forallb (ok (st_heap s)) items = true) /\
  (forall e, status (load items s) = Some e ->
     exists pre kv post s1,
       items = pre ++ kv :: post /\
       forallb (ok (st_heap s)) pre = true /\
       ok (st_heap s) kv = false /\
       load pre s = Done s1 /\
       st_heap (final (load items s)) = st_heap s1).
Proof.
  split; [apply load_weights_status_passes|].
  revert s. induction items as [|kv items IH]; intros s e; simpl; [discriminate|].
  pose proof (loop_body_passes s kv) as Hb.
  pose proof (loop_body_shape get_child model s kv) as Hsh.
  destruct (body s kv) as [s'|e' s'] eqn:Hbody; simpl in *.
  - intros Hst. destruct (IH s' e Hst) as (pre & kv' & post & s1 & -> & Hpre & Hkv & Hload & Hheap).
    exists (kv :: pre), kv', post, s1. simpl. rewrite Hbody.
    rewrite (proj1 Hb eq_refl).
    rewrite (forallb_pointwise (ok (st_heap s)) (ok (st_heap s')))
      by (intros x; symmetry; now apply passes_shapes).
    rewrite (passes_shapes (st_heap s) (st_heap s') kv')
      by (intros l; symmetry; apply Hsh).
    auto.
  - intros _. exists [], kv, items, s. simpl.
    split; [reflexivity|]. split; [reflexivity|]. split; [|split; [reflexivity|]].
    + destruct (ok (st_heap s) kv); [|reflexivity].
      destruct Hb as [_ Hb]. specialize (Hb eq_refl). discriminate.
    + destruct kv as [k v].
      destruct (loop_body_aborted get_child model s k v e' s' Hbody)
        as [(_ & _ & ->)|[(l & _ & _ & _ & ->)|(w & _ & _ & ->)]]; reflexivity.
Qed.

(** *** The order of the items *)

Lemma targets_In items l :
  In l (targets get_child model items) <->
  exists k v, In (k, v) items /\ get_child model k = Ok (PTensor l).
Proof.
  induction items as [|[k0 v0] items IH]; simpl.
  - split; [tauto|]. intros (k & v & [] & _).
  - split.
    + destruct (get_child model k0) as [[]|] eqn:Hg;
        try (intros (k & v & Hin & Hk)%IH; exists k, v; auto).
      intros [<-|(k & v & Hin & Hk)%IH]; [exists k0, v0; auto|exists k, v; auto].
    + intros (k & v & [[= -> ->]|Hin] & Hk).
      * rewrite Hk. now left.
      * assert (In l (targets get_child model items)) by (apply IH; eauto).
        destruct (get_child model k0) as [[]|]; auto. now right.
Qed.

Lemma targets_Permutation items items' :
  Permutation items items' ->
  Permutation (targets get_child model items) (targets get_child model items').
Proof.
  induction 1 as [|[k v] l l' _ IH|[k1 v1] [k2 v2] l|l l' l'' _ IH1 _ IH2]; simpl.
  - constructor.
  - destruct (get_child model k) as [[]|]; auto.
  - destruct (get_child model k1) as [[]|], (get_child model k2) as [[]|];
      try reflexivity. constructor.
  - now transitivity (targets get_child model l').
Qed.

(** When the pass returns and no two items resolve to one tensor, each
    tensor an item resolves to holds the array of that item. *)
Lemma load_weights_lookup_done items s k v l :
  status (load items s) = None ->
  List.NoDup (targets get_child model items) ->
  In (k, v) items ->
  get_child model k = Ok (PTensor l) ->
  st_heap (final (load items s)) !! l = Some (Tensor_of_ndarray (astype_float32 v)).
Proof.
  revert s. induction items as [|[k0 v0] items IH]; intros s Hst Hnd Hin Hg;
    [destruct Hin|].
  simpl in *.
  destruct (body s (k0, v0)) as [s'|e s'] eqn:Hb; [|discriminate].
  destruct Hin as [[= -> ->]|Hin].
  - rewrite Hg in Hnd. apply NoDup_cons_iff in Hnd as [Hnot _].
    rewrite load_weights_other.
    + assert (Hok : passes get_child model (st_heap s) (k, v) = true).
      { apply loop_body_passes. now rewrite Hb. }
      unfold passes, try_get_child in Hok. simpl in Hok. rewrite Hg in Hok.
      unfold shape_eqb in Hok. apply bool_decide_eq_true in Hok.
      rewrite (loop_body_bound get_child model s k v l Hg Hok) in Hb.
      injection Hb as <-. simpl. apply lookup_insert_eq.
    + intros k' v' Hin' Hk'. apply Hnot. apply targets_In. eauto.
  - apply IH; auto.
    destruct (get_child model k0) as [[]|]; auto.
    now apply NoDup_cons_iff in Hnd as [_ Hnd].
Qed.

(** X7.  If the pass over a checkpoint returns and no two of its keys
    resolve to one tensor, the pass over the same items in any other order
    returns too and leaves the same heap. *)
Theorem load_weights_order_irrelevant items items' s :
  Permutation items items' ->
  List.NoDup (targets get_child model items) ->
  status (load items s) = None ->
  status (load items' s) = None /\
  st_heap (final (load items' s)) = st_heap (final (load items s)).
Proof.
  intros Hperm Hnd Hst.
  assert (Hst' : status (load items' s) = None).
  { apply load_weights_status_passes. apply load_weights_status_passes in Hst.
    rewrite forallb_forall in *. intros kv Hin. apply Hst.
    apply Permutation_in with items'; [now symmetry|exact Hin]. }
  assert (Hnd' : List.NoDup (targets get_child model items')).
  { eapply Permutation_NoDup; [apply targets_Permutation; exact Hperm|exact Hnd]. }
  split; [exact Hst'|].
  apply map_eq. intros l.
  destruct (in_dec Pos.eq_dec l (targets get_child model items)) as [Hin|Hout].
  - apply targets_In in Hin as (k & v & Hin & Hg).
    rewrite (load_weights_lookup_done items s k v l Hst Hnd Hin Hg).
    apply (load_weights_lookup_done items' s k v l Hst' Hnd'); [|exact Hg].
    now apply Permutation_in with items.
  - rewrite !load_weights_other; [reflexivity| |].
    + intros k v Hin Hg. apply Hout. apply targets_In. eauto.
    + intros k v Hin Hg. apply Hout. apply targets_In. exists k, v.
      split; [|exact Hg]. apply Permutation_in with items'; [now symmetry|exact Hin].
Qed.

End Completion.

Lemma load_weights_order_irrelevant_witness :
  let weight := (Samples.norm_weight, Samples.vector 768 float64 Samples.tenth) in
  let bias := (Samples.norm_bias, Samples.vector 768 float32 (SInt 3)) in
  let skipped := (Samples.unet_weight, Samples.vector 320 float32 (SInt 0)) in
  Permutation [weight; skipped; bias] [bias; weight; skipped] /\
  List.NoDup (targets Utils.get_child main_model [weight; skipped; bias]) /\
  status (load_weights Utils.get_child main_model [weight; skipped; bias]
            Samples.main_state) = None /\
  status (load_weights Utils.get_child main_model [bias; weight; skipped]
            Samples.main_state) = None /\
  st_heap (final (load_weights Utils.get_child main_model [bias; weight; skipped]
                    Samples.main_state)) =
  st_heap (final (load_weights Utils.get_child main_model [weight; skipped; bias]
                    Samples.main_state)).
Proof.
  intros weight bias skipped.
  assert (Hperm : Permutation [weight; skipped; bias] [bias; weight; skipped]).
  { apply Permutation_sym. apply (Permutation_cons_app [weight; skipped] []).
    reflexivity. }
  assert (Hnd : List.NoDup (targets Utils.get_child main_model [weight; skipped; bias])).
  { replace (targets Utils.get_child main_model [weight; skipped; bias])
      with [196%positive; 197%positive] by (vm_compute; reflexivity).
    constructor; [intros [H|[]]; discriminate H|].
    constructor; [intros []|constructor]. }
  assert (Hst : status (load_weights Utils.get_child main_model [weight; skipped; bias]
                          Samples.main_state) = None)
    by (vm_compute; reflexivity).
  split; [exact Hperm|]. split; [exact Hnd|]. split; [exact Hst|].
  exact (load_weights_order_irrelevant Utils.get_child main_model
           [weight; skipped; bias] [bias; weight; skipped] Samples.main_state
           Hperm Hnd Hst).
Defined.

Lemma cells_between_nil p : cells_between p p = [].
Proof. unfold cells_between. now rewrite Nat.sub_diag. Qed.

Lemma cells_between_app p q r :
  (p <= q)%positive -> (q <= r)%positive ->
  cells_between p q ++ cells_between q r = cells_between p r.
Proof.
  intros Hpq Hqr. unfold cells_between. rewrite <- map_app. f_equal.
  replace (Pos.to_nat r - Pos.to_nat p)%nat
    with ((Pos.to_nat q - Pos.to_nat p) + (Pos.to_nat r - Pos.to_nat q))%nat by lia.
  rewrite seq_app. do 2 f_equal. lia.
Qed.

Lemma cells_between_succ p : cells_between p (Pos.succ p) = [p].
Proof.
  unfold cells_between.
  replace (Pos.to_nat (Pos.succ p) - Pos.to_nat p)%nat with 1%nat by lia.
  simpl. now rewrite Pos2Nat.id.
Qed.

Lemma cells_between_In p q l :
  In l (cells_between p q) <-> (p <= l)%positive /\ (l < q)%positive.
Proof.
  unfold cells_between. rewrite in_map_iff. split.
  - intros (n & <- & Hn). apply in_seq in Hn. lia.
  - intros [Hp Hq]. exists (Pos.to_nat l). split; [apply Pos2Nat.id|].
    apply in_seq. lia.
Qed.

Lemma cells_between_NoDup p q : List.NoDup (cells_between p q).
Proof.
  unfold cells_between. apply NoDup_ListNoDup. apply NoDup_fmap_2_strong.
  - intros x y Hx%list_elem_of_In%in_seq Hy%list_elem_of_In%in_seq Hxy.
    apply Nat2Pos.inj; lia.
  - apply NoDup_ListNoDup, seq_NoDup.
Qed.

(** *** How constructors compose *)

Lemma allocates_ret {A : Type} (tensors : A -> list loc) before (a : A) :
  tensors a = before -> allocates tensors before (init_ret a).
Proof.
  intros Ha st. simpl. rewrite cells_between_nil, app_nil_r.
  repeat split; auto; [lia|]. intros l Hlo Hhi. lia.
Qed.

Lemma allocates_bind {A B : Type} (tensors : A -> list loc)
    (tensors' : B -> list loc) before (m : Init A) (k : A -> Init B) :
  allocates tensors [] m ->
  (forall a, allocates tensors' (before ++ tensors a) (k a)) ->
  allocates tensors' before (init_bind m k).
Proof.
  intros Hm Hk st. unfold init_bind.
  specialize (Hm st). destruct (m st) as [a st1]. simpl in Hm.
  destruct Hm as (Hle1 & Ha & Hframe1 & Hnew1).
  specialize (Hk a st1). destruct (k a st1) as [b st2]. simpl in *.
  destruct Hk as (Hle2 & Hb & Hframe2 & Hnew2).
  split; [lia|]. split; [|split].
  - rewrite Hb, Ha, <- app_assoc. f_equal. now apply cells_between_app.
  - intros l Hl. rewrite Hframe2 by lia. apply Hframe1. lia.
  - intros l Hlo Hhi. destruct (Pos.ltb_spec l (next st1)).
    + rewrite Hframe2 by lia. now apply Hnew1.
    + now apply Hnew2.
Qed.

Lemma allocates_Tensor_empty sh : allocates leaves [] (Tensor_empty sh).
Proof.
  intros st. simpl. rewrite cells_between_succ.
  split; [lia|]. split; [reflexivity|]. split.
  - intros l Hl. apply lookup_insert_ne. lia.
  - intros l Hlo Hhi. assert (l = next st) as -> by lia.
    exists sh. apply lookup_insert_eq.
Qed.

Lemma allocates_init_repeat (n : nat) (m : Init pyobj) :
  allocates leaves [] m ->
  allocates (flat_map leaves) [] (init_repeat n m).
Proof.
  intros Hm. induction n as [|n IH]; simpl.
  - now apply allocates_ret.
  - apply allocates_bind with leaves; [exact Hm|]. intros x.
    apply allocates_bind with (flat_map leaves); [exact IH|]. intros xs.
    now apply allocates_ret.
Qed.

Lemma allocates_Normalize c g : allocates leaves [] (Normalize c g).
Proof.
  unfold Normalize.
  apply allocates_bind with leaves; [apply allocates_Tensor_empty|]. intros weight.
  apply allocates_bind with leaves; [apply allocates_Tensor_empty|]. intros bias.
  apply allocates_ret. simpl. now rewrite !app_nil_r.
Qed.

Lemma allocates_Linear i o b : allocates leaves [] (Linear i o b).
Proof.
  unfold Linear.
  apply allocates_bind with leaves; [apply allocates_Tensor_empty|]. intros weight.
  apply allocates_bind with leaves.
  { destruct b; [apply allocates_Tensor_empty|now apply allocates_ret]. }
  intros bias. apply allocates_ret. simpl. now rewrite !app_nil_r.
Qed.

Lemma allocates_CLIPMLP : allocates leaves [] CLIPMLP.
Proof.
  unfold CLIPMLP.
  apply allocates_bind with leaves; [apply allocates_Linear|]. intros fc1.
  apply allocates_bind with leaves; [apply allocates_Linear|]. intros fc2.
  apply allocates_ret. simpl. now rewrite !app_nil_r.
Qed.

Lemma allocates_CLIPAttention : allocates leaves [] CLIPAttention.
Proof.
  unfold CLIPAttention. cbv zeta.
  apply allocates_bind with leaves; [apply allocates_Linear|]. intros k_proj.
  apply allocates_bind with leaves; [apply allocates_Linear|]. intros v_proj.
  apply allocates_bind with leaves; [apply allocates_Linear|]. intros q_proj.
  apply allocates_bind with leaves; [apply allocates_Linear|]. intros out_proj.
  apply allocates_ret. simpl. now rewrite !app_nil_r, <- !app_assoc.
Qed.

Lemma allocates_CLIPEncoderLayer : allocates leaves [] CLIPEncoderLayer.
Proof.
  unfold CLIPEncoderLayer.
  apply allocates_bind with leaves; [apply allocates_CLIPAttention|]. intros a.
  apply allocates_bind with leaves; [apply allocates_Normalize|]. intros n1.
  apply allocates_bind with leaves; [apply allocates_CLIPMLP|]. intros mlp.
  apply allocates_bind with leaves; [apply allocates_Normalize|]. intros n2.
  apply allocates_ret. simpl. now rewrite !app_nil_r, <- !app_assoc.
Qed.

Lemma allocates_CLIPEncoder : allocates leaves [] CLIPEncoder.
Proof.
  unfold CLIPEncoder.
  apply allocates_bind with (flat_map leaves).
  { apply allocates_init_repeat, allocates_CLIPEncoderLayer. }
  intros layers. apply allocates_ret. simpl. now rewrite !app_nil_r.
Qed.

Lemma allocates_CLIPTextEmbeddings : allocates leaves [] CLIPTextEmbeddings.
Proof.
  unfold CLIPTextEmbeddings.
  apply allocates_bind with leaves; [apply allocates_Tensor_empty|]. intros p.
  apply allocates_bind with leaves; [apply allocates_Tensor_empty|]. intros t.
  apply allocates_bind with leaves; [apply allocates_Tensor_empty|]. intros q.
  apply allocates_ret. simpl. now rewrite !app_nil_r, <- !app_assoc.
Qed.

Lemma allocates_CLIPTextTransformer : allocates leaves [] CLIPTextTransformer.
Proof.
  unfold CLIPTextTransformer.
  apply allocates_bind with leaves; [apply allocates_CLIPTextEmbeddings|]. intros e.
  apply allocates_bind with leaves; [apply allocates_CLIPEncoder|]. intros enc.
  apply allocates_bind with leaves; [apply allocates_Normalize|]. intros n.
  apply allocates_ret. simpl. now rewrite !app_nil_r, <- !app_assoc.
Qed.

Lemma allocates_StableDiffusion : allocates leaves [] StableDiffusion.
Proof.
  unfold StableDiffusion.
  apply allocates_bind with leaves; [apply allocates_CLIPTextTransformer|]. intros t.
  apply allocates_ret. simpl. now rewrite !app_nil_r.
Qed.

(** X8.  The tensors of the object [StableDiffusion()] builds are exactly
    the cells its constructors allocate, each once: no two parameters
    share a tensor, every one is a new placeholder with no data, and the
    tensors that existed before are untouched. *)
Theorem StableDiffusion_tensors_are_fresh st :
  let self := fst (StableDiffusion st) in
  let st' := snd (StableDiffusion st) in
  leaves self = cells_between (next st) (next st') /\
  List.NoDup (leaves self) /\
  (forall l, In l (leaves self) ->
     (next st <= l)%positive /\ (l < next st')%positive /\
     exists sh, cells st' !! l = Some (Tensor_placeholder sh)) /\
  (forall l, (l < next st)%positive -> cells st' !! l = cells st !! l).
Proof.
  cbv zeta.
  destruct (allocates_StableDiffusion st) as (Hle & Hleaves & Hframe & Hnew).
  revert Hle Hleaves Hframe Hnew.
  generalize (StableDiffusion st). intros [self st']. simpl.
  intros Hle Hleaves Hframe Hnew.
  split; [exact Hleaves|]. split; [|split].
  - rewrite Hleaves. apply cells_between_NoDup.
  - intros l Hin. rewrite Hleaves in Hin.
    apply (proj1 (cells_between_In (next st) (next st') l)) in Hin.
    destruct Hin as [Hlo Hhi].
    split; [exact Hlo|]. split; [exact Hhi|]. now apply Hnew.
  - intros l Hl. apply Hframe. now left.
Qed.

(** ** The forward passes *)

(** The theorems of this part hold for every tensor library that meets
    [Net.Contract]; [Net.Shapes] meets it. *)

Import Net.

(** *** Shapes and numbers of elements *)

Lemma numel_app (a b : list Z) : numel (a ++ b) = numel a * numel b.
Proof. induction a as [|d a IH]; simpl; [lia|]. rewrite IH. lia. Qed.

Lemma numel_pos (s : list Z) : Forall (fun d => 0 < d) s -> 0 < numel s.
Proof. induction 1; simpl; lia. Qed.

(** A target shape without [-1] is taken as it is. *)
Lemma reshape_shape_same (s sh : list Z) :
  Forall (fun d => 0 < d) sh -> reshape_shape s sh = sh.
Proof.
  unfold reshape_shape. generalize (- numel s / numel sh). intros q.
  induction 1 as [|d sh Hd _ IH]; simpl; [reflexivity|].
  rewrite IH. destruct (Z.eqb_spec d (-1)); [lia|reflexivity].
Qed.

Lemma map_positive (q : Z) (sh : list Z) :
  Forall (fun d => 0 < d) sh ->
  map (fun d => if d =? -1 then q else d) sh = sh.
Proof.
  induction 1 as [|d sh Hd _ IH]; simpl; [reflexivity|].
  rewrite IH. destruct (Z.eqb_spec d (-1)); [lia|reflexivity].
Qed.

(** A [-1] becomes the size that keeps the number of elements. *)
Lemma reshape_shape_infer (s pre post : list Z) (q : Z) :
  Forall (fun d => 0 < d) pre -> Forall (fun d => 0 < d) post ->
  numel s = numel pre * q * numel post ->
  reshape_shape s (pre ++ -1 :: post) = pre ++ q :: post.
Proof.
  intros Hpre Hpost Hs. unfold reshape_shape.
  rewrite map_app. simpl. rewrite !map_positive by assumption.
  do 2 f_equal. rewrite numel_app. simpl.
  pose proof (numel_pos pre Hpre). pose proof (numel_pos post Hpost).
  rewrite Hs.
  replace (- (numel pre * q * numel post))
    with (q * (numel pre * (-1 * numel post))) by lia.
  apply Z.div_mul. nia.
Qed.

Section ShapeSteps.

Variable L : TensorLib.
Hypothesis HL : Contract L.

Lemma shape_reshape_same (x : tensor L) (sh : list Z) :
  Forall (fun d => 0 < d) sh -> numel sh = numel (shape x) ->
  shape (reshape x sh) = sh.
Proof.
  intros Hpos Hn. rewrite (shape_reshape L HL).
  - now apply reshape_shape_same.
  - now rewrite reshape_shape_same.
  - now rewrite reshape_shape_same.
Qed.

Lemma shape_reshape_infer (x : tensor L) (pre post : list Z) (q : Z) :
  Forall (fun d => 0 < d) pre -> Forall (fun d => 0 < d) post -> 0 < q ->
  numel (shape x) = numel pre * q * numel post ->
  shape (reshape x (pre ++ -1 :: post)) = pre ++ q :: post.
Proof.
  intros Hpre Hpost Hq Hn.
  rewrite (shape_reshape L HL);
    rewrite (reshape_shape_infer _ pre post q Hpre Hpost Hn); [reflexivity| |].
  - apply Forall_app. split; [exact Hpre|]. now constructor.
  - rewrite numel_app. simpl. rewrite Hn. lia.
Qed.

Lemma maps_shape_bind (f g : tensor L -> option (tensor L)) s1 s2 s3 :
  maps_shape f s1 s2 -> maps_shape g s2 s3 ->
  maps_shape (fun x => f x ≫= g) s1 s3.
Proof.
  intros Hf Hg x Hx. destruct (Hf x Hx) as (y & -> & Hy). simpl. now apply Hg.
Qed.

Lemma sequential_opt_cons (x : tensor L) f ll :
  sequential_opt L x (f :: ll) =
  match f x with Some y => sequential_opt L y ll | None => None end.
Proof.
  unfold sequential_opt. simpl. destruct (f x) as [y|]; [reflexivity|].
  induction ll as [|g ll IH]; simpl; auto.
Qed.

(** Two tensors of one shape are combined axis by axis. *)
Lemma broadcast_same (s : list Z) : broadcast s s = Some s.
Proof.
  unfold broadcast.
  assert (H : forall r : list Z, broadcast_rev r r = Some r).
  { induction r as [|d r IH]; [reflexivity|]. simpl. rewrite IH. simpl.
    now rewrite Z.eqb_refl. }
  rewrite H. simpl. now rewrite rev_involutive.
Qed.

End ShapeSteps.

(** *** The blocks of the autoencoder *)

(** A weight reshaped to [(1, c, 1, 1)] is spread over a batch of
    images of [c] channels. *)
Lemma broadcast_channels (b c h w : Z) :
  broadcast [b; c; h; w] [1; c; 1; 1] = Some [b; c; h; w].
Proof.
  unfold broadcast. simpl. rewrite Z.eqb_refl.
  destruct (b =? 1), (h =? 1), (w =? 1); reflexivity.
Qed.

Ltac positive_shape := repeat constructor; lia.

Section AutoencoderBlocks.

Variable L : TensorLib.
Hypothesis HL : Contract L.

(** [Normalize] on a batch of images: the branch of four axes. *)
Lemma Normalize_call_affine (n c b h w : Z) :
  0 < n -> 0 < c -> (c * h * w) mod n = 0 -> 0 < b -> 0 < h -> 0 < w ->
  maps_shape (Normalize_call L (Normalize_init L c n)) [b; c; h; w] [b; c; h; w].
Proof.
  intros Hn Hc Hmod Hb Hh Hw x Hx. unfold Normalize_call. rewrite Hx.
  cbn [weight bias num_groups Normalize_init].
  assert (Hg : c * h * w = n * (c * h * w / n)) by (apply Z_div_exact_2; lia).
  assert (Hgpos : 0 < c * h * w / n) by nia.
  assert (H1 : shape (reshape x [b; n; -1]) = [b; n; c * h * w / n]).
  { apply (shape_reshape_infer L HL x [b; n] [] (c * h * w / n)).
    - positive_shape.
    - constructor.
    - exact Hgpos.
    - rewrite Hx. simpl. nia. }
  set (x1 := reshape (layernorm (reshape x [b; n; -1])) [b; c; h; w]).
  assert (H2 : shape x1 = [b; c; h; w]).
  { apply (shape_reshape_same L HL); [positive_shape|].
    rewrite (shape_layernorm L HL), H1. simpl. nia. }
  rewrite H2. simpl. eexists. split; [reflexivity|].
  assert (Hparam : forall p : tensor L, shape p = [c] ->
            shape (reshape p [1; -1; 1; 1]) = [1; c; 1; 1]).
  { intros p Hp. apply (shape_reshape_infer L HL p [1] [1; 1] c).
    - positive_shape.
    - positive_shape.
    - exact Hc.
    - rewrite Hp. simpl. lia. }
  apply (shape_add L HL).
  rewrite (shape_mul L HL _ _ [b; c; h; w]).
  - rewrite Hparam by apply (shape_empty L HL). apply broadcast_channels.
  - rewrite H2, Hparam by apply (shape_empty L HL). apply broadcast_channels.
Qed.

Lemma Normalize_call_image (n c b h w : Z) :
  0 < n -> 0 < c -> c mod n = 0 -> 0 < b -> 0 < h -> 0 < w ->
  maps_shape (Normalize_call L (Normalize_init L c n)) [b; c; h; w] [b; c; h; w].
Proof.
  intros Hn Hc Hmod. apply Normalize_call_affine; [exact Hn|exact Hc|].
  apply Z.mod_divide; [lia|]. do 2 apply Z.divide_mul_l.
  apply Z.mod_divide; [lia|exact Hmod].
Qed.

(** A convolution of kernel 3, stride 1 and padding 1 keeps the height and
    the width, one of kernel 1 too, and one of kernel 3 and stride 2 with a
    padding of one at the right and at the bottom halves them. *)
Lemma Conv2d_same (cin cout b h w : Z) (x : tensor L) :
  0 < h -> 0 < w -> shape x = [b; cin; h; w] ->
  shape (Conv2d_call (Conv2d_new cin cout 3 1 (Pad 1)) x) = [b; cout; h; w].
Proof.
  intros Hh Hw Hx.
  rewrite (shape_Conv2d L HL cin cout 3 1 (Pad 1) x b h w Hx); simpl; try lia.
  rewrite !Z.div_1_r. do 3 f_equal; [lia|f_equal; lia].
Qed.

Lemma Conv2d_pointwise (cin cout b h w : Z) (x : tensor L) :
  0 < h -> 0 < w -> shape x = [b; cin; h; w] ->
  shape (Conv2d_call (Conv2d_new cin cout 1 1 (Pad 0)) x) = [b; cout; h; w].
Proof.
  intros Hh Hw Hx.
  rewrite (shape_Conv2d L HL cin cout 1 1 (Pad 0) x b h w Hx); simpl; try lia.
  rewrite !Z.div_1_r. do 3 f_equal; [lia|f_equal; lia].
Qed.

Lemma Conv2d_halves (cin cout b h w : Z) (x : tensor L) :
  2 <= h -> 2 <= w -> shape x = [b; cin; h; w] ->
  shape (Conv2d_call (Conv2d_new cin cout 3 2 (Pad4 0 1 0 1)) x) =
  [b; cout; h / 2; w / 2].
Proof.
  intros Hh Hw Hx.
  rewrite (shape_Conv2d L HL cin cout 3 2 (Pad4 0 1 0 1) x b h w Hx); simpl; try lia.
  assert (Hhalf : forall n, (n + 1 - 3) / 2 + 1 = n / 2).
  { intros n. replace (n + 1 - 3) with (n + (-1) * 2) by lia.
    rewrite Z.div_add by lia. lia. }
  now rewrite !Hhalf.
Qed.

Lemma AttnBlock_call_image (c b h w : Z) :
  0 < c -> c mod 32 = 0 -> 0 < b -> 0 < h -> 0 < w ->
  maps_shape (AttnBlock_call L (AttnBlock_init L c)) [b; c; h; w] [b; c; h; w].
Proof.
  intros Hc Hmod Hb Hh Hw x Hx. unfold AttnBlock_call.
  cbn [norm attn_q attn_k attn_v proj_out AttnBlock_init].
  destruct (Normalize_call_image 32 c b h w ltac:(lia) Hc Hmod Hb Hh Hw x Hx)
    as (n & -> & Hn).
  cbn [mbind option_bind].
  rewrite (Conv2d_pointwise c c b h w n Hh Hw Hn).
  eexists. split; [reflexivity|].
  assert (Hflat : forall y : tensor L, shape y = [b; c; h; w] ->
            shape (reshape y [b; c; h * w]) = [b; c; h * w]).
  { intros y Hy. apply (shape_reshape_same L HL); [positive_shape|].
    rewrite Hy. simpl. lia. }
  assert (Hconv : forall cv, cv = Conv2d_new c c 1 1 (Pad 0) ->
            shape (reshape (@Conv2d_call L cv n) [b; c; h * w]) = [b; c; h * w]).
  { intros cv ->. apply Hflat. now apply Conv2d_pointwise. }
  assert (Hswap : forall (y : tensor L) d e, shape y = [b; d; e] ->
            shape (permute y [0; 2; 1]%nat) = [b; e; d]).
  { intros y d e Hy. rewrite (shape_permute L HL).
    - rewrite Hy. reflexivity.
    - rewrite Hy. simpl. apply perm_skip, perm_swap. }
  assert (Hw_ : shape (matmul (permute (reshape (Conv2d_call (Conv2d_new c c 1 1 (Pad 0)) n)
                                 [b; c; h * w]) [0; 2; 1]%nat)
                        (reshape (Conv2d_call (Conv2d_new c c 1 1 (Pad 0)) n) [b; c; h * w]))
                = [b; h * w; h * w]).
  { apply (shape_matmul L HL _ _ [b] (h * w) c (h * w)).
    - apply Hswap, Hconv. reflexivity.
    - apply Hconv. reflexivity. }
  assert (Hh_ : forall w_ : tensor L, shape w_ = [b; h * w; h * w] ->
            shape (matmul (reshape (Conv2d_call (Conv2d_new c c 1 1 (Pad 0)) n) [b; c; h * w])
                     (permute (softmax (mul_rsqrt w_ c)) [0; 2; 1]%nat))
            = [b; c; h * w]).
  { intros w_ Hws. apply (shape_matmul L HL _ _ [b] c (h * w) (h * w)).
    - apply Hconv. reflexivity.
    - apply Hswap. now rewrite (shape_softmax L HL), (shape_mul_rsqrt L HL). }
  apply (shape_add L HL). rewrite Hx.
  rewrite (Conv2d_pointwise c c b h w); [apply broadcast_same|exact Hh|exact Hw|].
  apply (shape_reshape_same L HL); [positive_shape|].
  rewrite Hh_ by exact Hw_. simpl. lia.
Qed.

Lemma ResnetBlock_call_image (cin cout b h w : Z) :
  0 < cin -> cin mod 32 = 0 -> 0 < cout -> cout mod 32 = 0 ->
  0 < b -> 0 < h -> 0 < w ->
  maps_shape (ResnetBlock_call L (ResnetBlock_init L cin cout))
    [b; cin; h; w] [b; cout; h; w].
Proof.
  intros Hcin Hmin Hcout Hmout Hb Hh Hw x Hx. unfold ResnetBlock_call.
  cbn [norm1 conv1 norm2 conv2 nin_shortcut ResnetBlock_init].
  destruct (Normalize_call_image 32 cin b h w ltac:(lia) Hcin Hmin Hb Hh Hw x Hx)
    as (n1 & -> & Hn1).
  cbn [mbind option_bind].
  assert (H1 : shape (Conv2d_call (Conv2d_new cin cout 3 1 (Pad 1)) (swish n1))
               = [b; cout; h; w]).
  { apply Conv2d_same; [exact Hh|exact Hw|]. now rewrite (shape_swish L HL). }
  destruct (Normalize_call_image 32 cout b h w ltac:(lia) Hcout Hmout Hb Hh Hw _ H1)
    as (n2 & -> & Hn2).
  cbn [mbind option_bind].
  assert (H2 : shape (Conv2d_call (Conv2d_new cout cout 3 1 (Pad 1)) (swish n2))
               = [b; cout; h; w]).
  { apply Conv2d_same; [exact Hh|exact Hw|]. now rewrite (shape_swish L HL). }
  eexists. split; [reflexivity|].
  apply (shape_add L HL). rewrite H2.
  destruct (Z.eqb_spec cin cout) as [->|Hne].
  - rewrite Hx. apply broadcast_same.
  - rewrite (Conv2d_pointwise cin cout b h w x Hh Hw Hx). apply broadcast_same.
Qed.

(** [x.sequential(ll)] keeps a shape that every member of [ll] keeps. *)
Lemma sequential_opt_maps (ll : list (tensor L -> option (tensor L))) (s : list Z) :
  Forall (fun f => maps_shape f s s) ll ->
  maps_shape (fun x => sequential_opt L x ll) s s.
Proof.
  induction 1 as [|f ll Hf _ IH]; intros x Hx.
  - exists x. split; [reflexivity|exact Hx].
  - rewrite sequential_opt_cons. destruct (Hf x Hx) as (y & -> & Hy). now apply IH.
Qed.

Lemma Mid_call_image (c b h w : Z) :
  0 < c -> c mod 32 = 0 -> 0 < b -> 0 < h -> 0 < w ->
  maps_shape (Mid_call L (Mid_init L c)) [b; c; h; w] [b; c; h; w].
Proof.
  intros Hc Hmod Hb Hh Hw. unfold Mid_call.
  apply (sequential_opt_maps _ [b; c; h; w]).
  cbn [block_1 attn_1 block_2 Mid_init].
  repeat constructor.
  - now apply ResnetBlock_call_image.
  - now apply AttnBlock_call_image.
  - now apply ResnetBlock_call_image.
Qed.

End AutoencoderBlocks.

(** *** The stages of the decoder and of the encoder *)

Ltac zdiv := Z.div_mod_to_equations; lia.

Section AutoencoderStages.

Variable L : TensorLib.
Hypothesis HL : Contract L.

(** A loop over stages stops at the first exception. *)
Lemma fold_stages_cons {A : Type} (f : tensor L -> A -> option (tensor L))
    (l : A) (ls : list A) (x : tensor L) :
  fold_left (fun y l => y ≫= fun x => f x l) (l :: ls) (Some x) =
  match f x l with
  | Some y => fold_left (fun y l => y ≫= fun x => f x l) ls (Some y)
  | None => None
  end.
Proof.
  simpl. destruct (f x l) as [y|]; [reflexivity|].
  induction ls as [|l' ls IH]; simpl; auto.
Qed.

Lemma run_stage_blocks_image (cin cout b h w : Z) (rest : list (ResnetBlock_obj L))
    (conv : option (Conv2d L)) :
  0 < cin -> cin mod 32 = 0 -> 0 < cout -> cout mod 32 = 0 ->
  0 < b -> 0 < h -> 0 < w ->
  Forall (fun r => r = ResnetBlock_init L cout cout) rest ->
  maps_shape
    (run_stage_blocks L {| block := ResnetBlock_init L cin cout :: rest; resample := conv |})
    [b; cin; h; w] [b; cout; h; w].
Proof.
  intros Hcin Hmin Hcout Hmout Hb Hh Hw Hrest x Hx.
  unfold run_stage_blocks. cbn [block map]. rewrite sequential_opt_cons.
  destruct (ResnetBlock_call_image L HL cin cout b h w Hcin Hmin Hcout Hmout Hb Hh Hw x Hx)
    as (y & -> & Hy).
  apply (sequential_opt_maps L _ [b; cout; h; w]); [|exact Hy].
  apply Forall_map. eapply Forall_impl; [exact Hrest|].
  intros r ->. now apply ResnetBlock_call_image.
Qed.

(** The doubling of the rows and columns before the convolution of an
    upsampling stage. *)
Lemma upsample_image (c b h w : Z) (x : tensor L) :
  0 < c -> 0 < b -> 0 < h -> 0 < w -> shape x = [b; c; h; w] ->
  shape (reshape (expand (reshape x [b; c; h; 1; w; 1]) [b; c; h; 2; w; 2])
           [b; c; h * 2; w * 2]) = [b; c; h * 2; w * 2].
Proof.
  intros Hc Hb Hh Hw Hx.
  apply (shape_reshape_same L HL); [positive_shape|].
  rewrite (shape_expand L HL).
  - simpl. lia.
  - rewrite (shape_reshape_same L HL); [|positive_shape|rewrite Hx; simpl; lia].
    repeat (constructor; [(left; reflexivity) || (right; reflexivity)|]).
    constructor.
Qed.

Lemma Decoder_stage_plain (cin cout b h w : Z) (rest : list (ResnetBlock_obj L)) :
  0 < cin -> cin mod 32 = 0 -> 0 < cout -> cout mod 32 = 0 ->
  0 < b -> 0 < h -> 0 < w ->
  Forall (fun r => r = ResnetBlock_init L cout cout) rest ->
  maps_shape
    (fun x => Decoder_stage L x
       {| block := ResnetBlock_init L cin cout :: rest; resample := None |})
    [b; cin; h; w] [b; cout; h; w].
Proof.
  intros Hcin Hmin Hcout Hmout Hb Hh Hw Hrest x Hx. unfold Decoder_stage.
  destruct (run_stage_blocks_image cin cout b h w rest None
              Hcin Hmin Hcout Hmout Hb Hh Hw Hrest x Hx) as (y & -> & Hy).
  exists y. split; [reflexivity|exact Hy].
Qed.

Lemma Decoder_stage_upsample (cin cout b h w : Z) (rest : list (ResnetBlock_obj L)) :
  0 < cin -> cin mod 32 = 0 -> 0 < cout -> cout mod 32 = 0 ->
  0 < b -> 0 < h -> 0 < w ->
  Forall (fun r => r = ResnetBlock_init L cout cout) rest ->
  maps_shape
    (fun x => Decoder_stage L x
       {| block := ResnetBlock_init L cin cout :: rest;
          resample := Some (Conv2d_new cout cout 3 1 (Pad 1)) |})
    [b; cin; h; w] [b; cout; h * 2; w * 2].
Proof.
  intros Hcin Hmin Hcout Hmout Hb Hh Hw Hrest x Hx. unfold Decoder_stage.
  destruct (run_stage_blocks_image cin cout b h w rest
              (Some (Conv2d_new cout cout 3 1 (Pad 1)))
              Hcin Hmin Hcout Hmout Hb Hh Hw Hrest x Hx) as (y & -> & Hy).
  cbn [mbind option_bind resample]. rewrite Hy.
  eexists. split; [reflexivity|].
  apply (Conv2d_same L HL); [lia|lia|].
  now apply upsample_image.
Qed.

Lemma Encoder_stage_plain (cin cout b h w : Z) (rest : list (ResnetBlock_obj L)) :
  0 < cin -> cin mod 32 = 0 -> 0 < cout -> cout mod 32 = 0 ->
  0 < b -> 0 < h -> 0 < w ->
  Forall (fun r => r = ResnetBlock_init L cout cout) rest ->
  maps_shape
    (fun x => Encoder_stage L x
       {| block := ResnetBlock_init L cin cout :: rest; resample := None |})
    [b; cin; h; w] [b; cout; h; w].
Proof.
  intros Hcin Hmin Hcout Hmout Hb Hh Hw Hrest x Hx. unfold Encoder_stage.
  destruct (run_stage_blocks_image cin cout b h w rest None
              Hcin Hmin Hcout Hmout Hb Hh Hw Hrest x Hx) as (y & -> & Hy).
  exists y. split; [reflexivity|exact Hy].
Qed.

Lemma Encoder_stage_downsample (cin cout b h w : Z) (rest : list (ResnetBlock_obj L)) :
  0 < cin -> cin mod 32 = 0 -> 0 < cout -> cout mod 32 = 0 ->
  0 < b -> 2 <= h -> 2 <= w ->
  Forall (fun r => r = ResnetBlock_init L cout cout) rest ->
  maps_shape
    (fun x => Encoder_stage L x
       {| block := ResnetBlock_init L cin cout :: rest;
          resample := Some (Conv2d_new cout cout 3 2 (Pad4 0 1 0 1)) |})
    [b; cin; h; w] [b; cout; h / 2; w / 2].
Proof.
  intros Hcin Hmin Hcout Hmout Hb Hh Hw Hrest x Hx. unfold Encoder_stage.
  destruct (run_stage_blocks_image cin cout b h w rest
              (Some (Conv2d_new cout cout 3 2 (Pad4 0 1 0 1)))
              Hcin Hmin Hcout Hmout Hb ltac:(lia) ltac:(lia) Hrest x Hx) as (y & -> & Hy).
  cbn [mbind option_bind resample].
  eexists. split; [reflexivity|].
  now apply (Conv2d_halves L HL).
Qed.

(** The stages [Decoder.__init__] and [Encoder.__init__] build. *)
Lemma Decoder_up :
  up L (Decoder_init L) =
  [ {| block := [ResnetBlock_init L 256 128; ResnetBlock_init L 128 128;
                 ResnetBlock_init L 128 128];
       resample := None |};
    {| block := [ResnetBlock_init L 512 256; ResnetBlock_init L 256 256;
                 ResnetBlock_init L 256 256];
       resample := Some (Conv2d_new 256 256 3 1 (Pad 1)) |};
    {| block := [ResnetBlock_init L 512 512; ResnetBlock_init L 512 512;
                 ResnetBlock_init L 512 512];
       resample := Some (Conv2d_new 512 512 3 1 (Pad 1)) |};
    {| block := [ResnetBlock_init L 512 512; ResnetBlock_init L 512 512;
                 ResnetBlock_init L 512 512];
       resample := Some (Conv2d_new 512 512 3 1 (Pad 1)) |} ].
Proof. reflexivity. Qed.

Lemma Encoder_down :
  down L (Encoder_init L) =
  [ {| block := [ResnetBlock_init L 128 128; ResnetBlock_init L 128 128];
       resample := Some (Conv2d_new 128 128 3 2 (Pad4 0 1 0 1)) |};
    {| block := [ResnetBlock_init L 128 256; ResnetBlock_init L 256 256];
       resample := Some (Conv2d_new 256 256 3 2 (Pad4 0 1 0 1)) |};
    {| block := [ResnetBlock_init L 256 512; ResnetBlock_init L 512 512];
       resample := Some (Conv2d_new 512 512 3 2 (Pad4 0 1 0 1)) |};
    {| block := [ResnetBlock_init L 512 512; ResnetBlock_init L 512 512];
       resample := None |} ].
Proof. reflexivity. Qed.

Ltac same_blocks := repeat constructor.

Lemma Decoder_call_image (b h w : Z) :
  0 < b -> 0 < h -> 0 < w ->
  maps_shape (Decoder_call L (Decoder_init L)) [b; 4; h; w] [b; 3; 8 * h; 8 * w].
Proof.
  intros Hb Hh Hw x Hx. unfold Decoder_call. rewrite Decoder_up.
  cbn [d_conv_in d_mid d_norm_out d_conv_out Decoder_init rev app].
  pose proof (Conv2d_same L HL 4 512 b h w x Hh Hw Hx) as H0.
  destruct (Mid_call_image L HL 512 b h w ltac:(lia) eq_refl Hb Hh Hw _ H0)
    as (x1 & -> & H1).
  cbn [mbind option_bind].
  rewrite fold_stages_cons.
  destruct (Decoder_stage_upsample 512 512 b h w
              [ResnetBlock_init L 512 512; ResnetBlock_init L 512 512]
              ltac:(lia) eq_refl ltac:(lia) eq_refl Hb Hh Hw ltac:(same_blocks) x1 H1)
    as (x2 & -> & H2).
  rewrite fold_stages_cons.
  destruct (Decoder_stage_upsample 512 512 b (h * 2) (w * 2)
              [ResnetBlock_init L 512 512; ResnetBlock_init L 512 512]
              ltac:(lia) eq_refl ltac:(lia) eq_refl Hb ltac:(lia) ltac:(lia)
              ltac:(same_blocks) x2 H2)
    as (x3 & -> & H3).
  rewrite fold_stages_cons.
  destruct (Decoder_stage_upsample 512 256 b (h * 2 * 2) (w * 2 * 2)
              [ResnetBlock_init L 256 256; ResnetBlock_init L 256 256]
              ltac:(lia) eq_refl ltac:(lia) eq_refl Hb ltac:(lia) ltac:(lia)
              ltac:(same_blocks) x3 H3)
    as (x4 & -> & H4).
  rewrite fold_stages_cons.
  destruct (Decoder_stage_plain 256 128 b (h * 2 * 2 * 2) (w * 2 * 2 * 2)
              [ResnetBlock_init L 128 128; ResnetBlock_init L 128 128]
              ltac:(lia) eq_refl ltac:(lia) eq_refl Hb ltac:(lia) ltac:(lia)
              ltac:(same_blocks) x4 H4)
    as (x5 & -> & H5).
  cbn [fold_left mbind option_bind].
  destruct (Normalize_call_image L HL 32 128 b (h * 2 * 2 * 2) (w * 2 * 2 * 2)
              ltac:(lia) ltac:(lia) eq_refl Hb ltac:(lia) ltac:(lia) x5 H5)
    as (n & -> & Hn).
  cbn [mbind option_bind].
  eexists. split; [reflexivity|].
  rewrite (Conv2d_same L HL 128 3 b (h * 2 * 2 * 2) (w * 2 * 2 * 2));
    [|lia|lia|now rewrite (shape_swish L HL)].
  do 2 f_equal. f_equal; [lia|f_equal; lia].
Qed.

Lemma Encoder_call_image (b h w : Z) :
  0 < b -> 8 <= h -> 8 <= w ->
  maps_shape (Encoder_call L (Encoder_init L)) [b; 3; h; w] [b; 8; h / 8; w / 8].
Proof.
  intros Hb Hh Hw x Hx. unfold Encoder_call. rewrite Encoder_down.
  cbn [e_conv_in e_mid e_norm_out e_conv_out Encoder_init].
  pose proof (Conv2d_same L HL 3 128 b h w x ltac:(zdiv) ltac:(zdiv) Hx) as H0.
  rewrite fold_stages_cons.
  destruct (Encoder_stage_downsample 128 128 b h w
              [ResnetBlock_init L 128 128]
              ltac:(zdiv) eq_refl ltac:(zdiv) eq_refl Hb ltac:(zdiv) ltac:(zdiv)
              ltac:(same_blocks) _ H0)
    as (x1 & -> & H1).
  rewrite fold_stages_cons.
  destruct (Encoder_stage_downsample 128 256 b (h / 2) (w / 2)
              [ResnetBlock_init L 256 256]
              ltac:(zdiv) eq_refl ltac:(zdiv) eq_refl Hb ltac:(zdiv) ltac:(zdiv)
              ltac:(same_blocks) x1 H1)
    as (x2 & -> & H2).
  rewrite fold_stages_cons.
  destruct (Encoder_stage_downsample 256 512 b (h / 2 / 2) (w / 2 / 2)
              [ResnetBlock_init L 512 512]
              ltac:(zdiv) eq_refl ltac:(zdiv) eq_refl Hb ltac:(zdiv) ltac:(zdiv)
              ltac:(same_blocks) x2 H2)
    as (x3 & -> & H3).
  rewrite fold_stages_cons.
  destruct (Encoder_stage_plain 512 512 b (h / 2 / 2 / 2) (w / 2 / 2 / 2)
              [ResnetBlock_init L 512 512]
              ltac:(zdiv) eq_refl ltac:(zdiv) eq_refl Hb ltac:(zdiv) ltac:(zdiv)
              ltac:(same_blocks) x3 H3)
    as (x4 & -> & H4).
  cbn [fold_left mbind option_bind].
  destruct (Mid_call_image L HL 512 b (h / 2 / 2 / 2) (w / 2 / 2 / 2)
              ltac:(zdiv) eq_refl Hb ltac:(zdiv) ltac:(zdiv) x4 H4)
    as (x5 & -> & H5).
  cbn [mbind option_bind].
  destruct (Normalize_call_image L HL 32 512 b (h / 2 / 2 / 2) (w / 2 / 2 / 2)
              ltac:(zdiv) ltac:(zdiv) eq_refl Hb ltac:(zdiv) ltac:(zdiv) x5 H5)
    as (n & -> & Hn).
  cbn [mbind option_bind].
  eexists. split; [reflexivity|].
  rewrite (Conv2d_same L HL 512 8 b (h / 2 / 2 / 2) (w / 2 / 2 / 2));
    [|zdiv|zdiv|now rewrite (shape_swish L HL)].
  do 2 f_equal. f_equal; [zdiv|f_equal; zdiv].
Qed.

End AutoencoderStages.

(** The library of shapes meets the contract. *)
Lemma Shapes_Contract : Contract Shapes.
Proof.
  constructor; cbn [tensor shape empty reshape permute expand layernorm softmax
                    swish mul add matmul mul_rsqrt linear slice_channels Conv2d
                    transpose quick_gelu Tensor_of_rows
                    Conv2d_new Conv2d_call Shapes]; try reflexivity.
  - intros x y s ->. reflexivity.
  - intros x y s ->. reflexivity.
  - intros x y batch m k n -> ->.
    change [m; k] with ([m] ++ [k]). change [k; n] with ([k] ++ [n]).
    rewrite !app_assoc, removelast_last, last_last. now rewrite <- app_assoc.
  - intros x w b init c _ -> _. reflexivity.
  - intros x w b init k n -> -> _. now rewrite removelast_last.
  - intros x y init m k n -> ->.
    change [m; k] with ([m] ++ [k]).
    rewrite !app_assoc, removelast_last. now rewrite <- app_assoc.
  - intros x m n ->. reflexivity.
  - intros rows width Hne Hrows. destruct rows as [|row rows]; [congruence|].
    inversion Hrows; subst. reflexivity.
  - intros x b c h w lo hi -> _ _ _. reflexivity.
  - intros cin cout k s p x b h w -> _ _ _. reflexivity.
Qed.

Section TextModelShapes.

Variable L : TensorLib.
Hypothesis HL : Contract L.

(** The contract in the form the proofs below apply it in: from the shape
    of the argument to the shape of the result. *)
Lemma reshape_to (x : tensor L) (s sh : list Z) :
  shape x = s -> Forall (fun d => 0 < d) sh -> numel sh = numel s ->
  shape (reshape x sh) = sh.
Proof. intros <- Hpos Hn. now apply (shape_reshape_same L HL). Qed.

Lemma reshape_infer_to (x : tensor L) (s pre post : list Z) (q : Z) :
  shape x = s ->
  Forall (fun d => 0 < d) pre -> Forall (fun d => 0 < d) post -> 0 < q ->
  numel s = numel pre * q * numel post ->
  shape (reshape x (pre ++ -1 :: post)) = pre ++ q :: post.
Proof. intros <-. apply (shape_reshape_infer L HL). Qed.

Lemma permute_021 (x : tensor L) (a d e : Z) :
  shape x = [a; d; e] -> shape (permute x [0; 2; 1]%nat) = [a; e; d].
Proof.
  intros Hx. rewrite (shape_permute L HL); rewrite Hx; [reflexivity|].
  simpl. apply perm_skip, perm_swap.
Qed.

Lemma permute_0213 (x : tensor L) (a c d e : Z) :
  shape x = [a; c; d; e] -> shape (permute x [0; 2; 1; 3]%nat) = [a; d; c; e].
Proof.
  intros Hx. rewrite (shape_permute L HL); rewrite Hx; [reflexivity|].
  simpl. apply perm_skip, perm_swap.
Qed.

Lemma matmul_batch (x y : tensor L) (a m k n : Z) :
  shape x = [a; m; k] -> shape y = [a; k; n] -> shape (matmul x y) = [a; m; n].
Proof. intros Hx Hy. exact (shape_matmul L HL x y [a] m k n Hx Hy). Qed.

Lemma Linear_call_rows (k n : Z) (init : list Z) (x : tensor L) :
  shape x = init ++ [k] ->
  shape (Linear_call L (Linear_init L k n) x) = init ++ [n].
Proof.
  intros Hx. unfold Linear_call. cbn [lin_weight lin_bias Linear_init].
  apply (shape_linear_matrix L HL _ _ _ init k n Hx).
  - apply (shape_transpose L HL), (shape_empty L HL).
  - apply (shape_empty L HL).
Qed.

(** *** The classes of the text model *)

(** [Normalize] on a tensor of other than four axes: the branch of
    [x.linear(self.weight, self.bias)]. *)
Lemma Normalize_call_rows (g c b : Z) (rest init : list Z) :
  0 < g -> Forall (fun d => 0 < d) (b :: rest) -> length rest <> 3%nat ->
  numel rest mod g = 0 -> b :: rest = init ++ [c] ->
  maps_shape (Normalize_call L (Normalize_init L c g)) (b :: rest) (b :: rest).
Proof.
  intros Hg Hpos Hlen Hmod Hlast x Hx. unfold Normalize_call. rewrite Hx.
  cbn [weight bias num_groups Normalize_init].
  pose proof (Forall_inv Hpos) as Hb. cbv beta in Hb.
  pose proof (numel_pos _ (Forall_inv_tail Hpos)) as Hn.
  assert (Hq : numel rest = g * (numel rest / g)) by (apply Z_div_exact_2; lia).
  set (x1 := reshape (layernorm (reshape x [b; g; -1])) (b :: rest)).
  assert (H1 : shape x1 = b :: rest).
  { apply (reshape_to _ [b; g; numel rest / g]).
    - rewrite (shape_layernorm L HL).
      apply (reshape_infer_to x (b :: rest) [b; g] [] _ Hx).
      + positive_shape.
      + constructor.
      + nia.
      + cbn [numel fold_right]. fold (numel rest). nia.
    - exact Hpos.
    - cbn [numel fold_right]. fold (numel rest). nia. }
  rewrite H1.
  destruct (Nat.eqb_spec (length (b :: rest)) 4) as [Heq|_].
  - exfalso. cbn [length] in Heq. lia.
  - eexists. split; [reflexivity|].
    rewrite (shape_linear L HL x1 _ _ init c); [exact H1|now rewrite H1| |];
      apply (shape_empty L HL).
Qed.

Lemma CLIPMLP_call_rows (b n : Z) (x : tensor L) :
  shape x = [b; n; 768] -> shape (CLIPMLP_call L (CLIPMLP_init L) x) = [b; n; 768].
Proof.
  intros Hx. unfold CLIPMLP_call. cbn [fc1 fc2 CLIPMLP_init].
  apply (Linear_call_rows 3072 768 [b; n]).
  rewrite (shape_quick_gelu L HL).
  exact (Linear_call_rows 768 3072 [b; n] x Hx).
Qed.

Lemma CLIPAttention_init_fields :
  CLIPAttention_init L =
  {| embed_dim := 768; num_heads := 12; head_dim := 64;
     k_proj := Linear_init L 768 768; v_proj := Linear_init L 768 768;
     q_proj := Linear_init L 768 768; out_proj := Linear_init L 768 768 |}.
Proof. reflexivity. Qed.

Lemma CLIPAttention_call_rows (b n : Z) :
  0 < b -> 0 < n ->
  maps_shape (CLIPAttention_call L (CLIPAttention_init L)) [b; n; 768] [b; n; 768].
Proof.
  intros Hb Hn x Hx. unfold CLIPAttention_call. rewrite Hx, CLIPAttention_init_fields.
  unfold CLIPAttention_shape.
  cbn [embed_dim num_heads head_dim k_proj v_proj q_proj out_proj].
  eexists. split; [reflexivity|].
  pose proof (Linear_call_rows 768 768 [b; n] x Hx) as Hproj.
  cbn [app] in Hproj.
  assert (Hheads : forall y : tensor L, shape y = [b; n; 768] ->
            shape (reshape (permute (reshape y [b; -1; 12; 64]) [0; 2; 1; 3]%nat)
                     [b * 12; -1; 64]) = [b * 12; n; 64]).
  { intros y Hy.
    apply (reshape_infer_to _ [b; 12; n; 64] [b * 12] [64] n);
      [|positive_shape|positive_shape|exact Hn|simpl; lia].
    apply permute_0213.
    apply (reshape_infer_to y [b; n; 768] [b] [12; 64] n Hy);
      [positive_shape|positive_shape|exact Hn|simpl; lia]. }
  apply (Linear_call_rows 768 768 [b; n]).
  apply (reshape_to _ [b; n; 12; 64]); [|positive_shape|simpl; lia].
  apply permute_0213.
  apply (reshape_to _ [b * 12; n; 64]); [|positive_shape|simpl; lia].
  apply (matmul_batch _ _ (b * 12) n n 64).
  - rewrite (shape_softmax L HL).
    apply (matmul_batch _ _ (b * 12) n 64 n).
    + apply (reshape_infer_to _ [b; 12; n; 64] [b * 12] [64] n);
        [|positive_shape|positive_shape|exact Hn|simpl; lia].
      apply permute_0213.
      apply (reshape_to _ [b; n; 768]); [|positive_shape|simpl; lia].
      now rewrite (shape_mul_rsqrt L HL).
    + apply permute_021. now apply Hheads.
  - now apply Hheads.
Qed.

Lemma CLIPEncoderLayer_call_rows (b n : Z) :
  0 < b -> 0 < n ->
  maps_shape (CLIPEncoderLayer_call L (CLIPEncoderLayer_init L))
    [b; n; 768] [b; n; 768].
Proof.
  intros Hb Hn x Hx. unfold CLIPEncoderLayer_call.
  cbn [self_attn layer_norm1 mlp layer_norm2 CLIPEncoderLayer_init].
  assert (Hnorm : maps_shape (Normalize_call L (Normalize_init L 768 1))
                    [b; n; 768] [b; n; 768]).
  { apply (Normalize_call_rows 1 768 b [n; 768] [b; n]).
    - lia.
    - positive_shape.
    - simpl. lia.
    - apply Z.mod_1_r.
    - reflexivity. }
  destruct (Hnorm x Hx) as (x1 & -> & H1). cbn [mbind option_bind].
  destruct (CLIPAttention_call_rows b n Hb Hn x1 H1) as (x2 & -> & H2).
  cbn [mbind option_bind].
  assert (H3 : shape (add x x2) = [b; n; 768]).
  { apply (shape_add L HL). rewrite Hx, H2. apply broadcast_same. }
  destruct (Hnorm _ H3) as (x4 & -> & H4). cbn [mbind option_bind].
  eexists. split; [reflexivity|].
  apply (shape_add L HL). rewrite H3, (CLIPMLP_call_rows b n x4 H4).
  apply broadcast_same.
Qed.

Lemma CLIPEncoder_call_rows (b n : Z) :
  0 < b -> 0 < n ->
  maps_shape (CLIPEncoder_call L (CLIPEncoder_init L)) [b; n; 768] [b; n; 768].
Proof.
  intros Hb Hn. unfold CLIPEncoder_call, CLIPEncoder_init.
  apply (sequential_opt_maps L _ [b; n; 768]).
  rewrite map_map. apply Forall_map, Forall_forall.
  intros _ _. now apply CLIPEncoderLayer_call_rows.
Qed.

Lemma one_hot_row_length (width : nat) (x : Z) :
  length (one_hot_row width x) = width.
Proof. unfold one_hot_row. now rewrite length_insert, length_replicate. Qed.

(** The embeddings of [n] valid token ids have the shape [(1, n, 768)]. *)
Lemma CLIPTextEmbeddings_call_rows (input_ids : list Z) :
  input_ids <> [] ->
  forallb (index_ok vocabulary) input_ids = true ->
  (length input_ids <= max_positions)%nat ->
  exists x,
    CLIPTextEmbeddings_call (tensor L)
      (fun a => Ok (Tensor_of_rows a))
      (fun x y => Ok (matmul x y)) (fun x y => Ok (add x y))
      (token_embedding L (embeddings L (CLIPTextTransformer_init L)))
      (position_embedding L (embeddings L (CLIPTextTransformer_init L)))
      input_ids (range (length input_ids)) = Ok x /\
    shape x = [1; Z.of_nat (length input_ids); 768].
Proof.
  intros Hne Hids Hlen. unfold CLIPTextEmbeddings_call.
  rewrite !one_hot_rows, range_index_ok, Hids.
  rewrite (proj2 (Nat.leb_le _ _) Hlen).
  cbn [mbind result_bind].
  eexists. split; [reflexivity|].
  cbn [token_embedding position_embedding embeddings CLIPTextTransformer_init
       CLIPTextEmbeddings_init].
  assert (Hrows : forall (width : nat) (ids : list Z) (k : Z), ids <> [] ->
            Z.of_nat width = k ->
            shape (matmul (@Tensor_of_rows L (map (one_hot_row width) ids))
                     (@empty L [k; 768]))
            = [1; Z.of_nat (length ids); 768]).
  { intros width ids k Hids' <-.
    apply (shape_matmul_matrix L HL _ _ [1] (Z.of_nat (length ids)) (Z.of_nat width) 768).
    - rewrite (shape_Tensor_of_rows L HL _ width).
      + now rewrite length_map.
      + destruct ids; [congruence|discriminate].
      + apply Forall_map, Forall_forall. intros y _. apply one_hot_row_length.
    - apply (shape_empty L HL). }
  apply (shape_add L HL).
  rewrite (Hrows vocabulary input_ids 49408 Hne).
  - rewrite (Hrows max_positions (range (length input_ids)) 77).
    + unfold range. rewrite length_map, length_seq. apply broadcast_same.
    + unfold range. destruct input_ids; [congruence|discriminate].
    + reflexivity.
  - unfold vocabulary. now rewrite Z2Nat.id.
Qed.

Lemma Upsample_call_image (c b h w : Z) :
  0 < c -> 0 < b -> 0 < h -> 0 < w ->
  maps_shape (Upsample_call L (Upsample_init L c)) [b; c; h; w] [b; c; h * 2; w * 2].
Proof.
  intros Hc Hb Hh Hw x Hx. unfold Upsample_call, Upsample_init. rewrite Hx.
  eexists. split; [reflexivity|].
  apply (Conv2d_same L HL); [lia|lia|]. now apply upsample_image.
Qed.

Lemma Downsample_call_image (c b h w : Z) :
  2 <= h -> 2 <= w ->
  maps_shape (Downsample_call L (Downsample_init L c)) [b; c; h; w] [b; c; h / 2; w / 2].
Proof.
  intros Hh Hw x Hx. unfold Downsample_call, Downsample_init.
  eexists. split; [reflexivity|]. now apply (Conv2d_halves L HL).
Qed.

End TextModelShapes.

(** *** The shapes the forward passes give *)

(** X9.  [Normalize.__call__] returns a tensor of the shape of its input:
    the input is regrouped as [(x.shape[0], num_groups, -1)], so the
    number of groups has to divide the number of elements of one item of
    the batch, and the weight and the bias are applied on the second axis
    of a tensor of four axes and on the last axis of any other. *)
Theorem Normalize_call_keeps_shape (L : TensorLib) (HL : Contract L)
    (g c b : Z) (rest : list Z) :
  0 < g -> Forall (fun d => 0 < d) (b :: rest) -> numel rest mod g = 0 ->
  (if (length rest =? 3)%nat then nth 0 rest 0 else List.last (b :: rest) 0) = c ->
  maps_shape (Normalize_call L (Normalize_init L c g)) (b :: rest) (b :: rest).
Proof.
  intros Hg Hpos Hmod Hc.
  destruct (Nat.eqb_spec (length rest) 3) as [Hlen|Hlen].
  - destruct rest as [|c0 [|h [|w [|? ?]]]]; try discriminate.
    cbn [nth] in Hc. subst c0.
    inversion Hpos as [|? ? Hb Hrest]; subst.
    inversion Hrest as [|? ? Hc0 Hhw]; subst.
    inversion Hhw as [|? ? Hh Hw']; subst.
    inversion Hw' as [|? ? Hw _]; subst.
    apply (Normalize_call_affine L HL); try assumption.
    cbn [numel fold_right] in Hmod. rewrite <- Hmod. f_equal. lia.
  - apply (Normalize_call_rows L HL g c b rest (removelast (b :: rest)));
      try assumption.
    rewrite <- Hc. now apply app_removelast_last.
Qed.

Lemma Normalize_call_keeps_shape_witness :
  Contract Shapes /\ 0 < 32 /\ Forall (fun d => 0 < d) [1; 128; 8; 8] /\
  numel [128; 8; 8] mod 32 = 0 /\
  (if (length [128; 8; 8] =? 3)%nat then nth 0 [128; 8; 8] 0
   else List.last [1; 128; 8; 8] 0) = 128 /\
  exists y, Normalize_call Shapes (Normalize_init Shapes 128 32) [1; 128; 8; 8] = Some y /\
            @shape Shapes y = [1; 128; 8; 8].
Proof.
  assert (Hpos : Forall (fun d => 0 < d) [1; 128; 8; 8]) by (repeat constructor).
  split; [exact Shapes_Contract|]. split; [reflexivity|]. split; [exact Hpos|].
  split; [reflexivity|]. split; [reflexivity|].
  exact (Normalize_call_keeps_shape Shapes Shapes_Contract 32 128 1 [128; 8; 8]
           eq_refl Hpos eq_refl eq_refl [1; 128; 8; 8] eq_refl).
Defined.

(** X10.  [ResnetBlock(in_channels, out_channels)], the two numbers of
    channels being multiples of the 32 groups of its [Normalize]s, returns
    on a batch of images of [in_channels] channels the sum of a shortcut
    and a residual, both of [out_channels] channels and of the height and
    width of the input.  The residual is
    [conv2(norm2(conv1(norm1(x).swish())).swish())]; the shortcut is [x]
    itself when the two numbers of channels are equal and the convolution
    of kernel 1 of [x] when they differ. *)
Theorem ResnetBlock_call_changes_channels (L : TensorLib) (HL : Contract L)
    (cin cout b h w : Z) (x : tensor L) :
  0 < cin -> cin mod 32 = 0 -> 0 < cout -> cout mod 32 = 0 ->
  0 < b -> 0 < h -> 0 < w ->
  shape x = [b; cin; h; w] ->
  exists n1 n2 : tensor L,
    Normalize_call L (Normalize_init L cin 32) x = Some n1 /\
    Normalize_call L (Normalize_init L cout 32)
      (Conv2d_call (Conv2d_new cin cout 3 1 (Pad 1)) (swish n1)) = Some n2 /\
    let residual := Conv2d_call (Conv2d_new cout cout 3 1 (Pad 1)) (swish n2) in
    let shortcut :=
      if cin =? cout then x else Conv2d_call (Conv2d_new cin cout 1 1 (Pad 0)) x in
    shape residual = [b; cout; h; w] /\
    shape shortcut = [b; cout; h; w] /\
    ResnetBlock_call L (ResnetBlock_init L cin cout) x = Some (add shortcut residual) /\
    shape (add shortcut residual) = [b; cout; h; w].
Proof.
  intros Hcin Hmin Hcout Hmout Hb Hh Hw Hx.
  destruct (Normalize_call_image L HL 32 cin b h w ltac:(lia) Hcin Hmin Hb Hh Hw x Hx)
    as (n1 & Hn1 & Hs1).
  assert (H1 : shape (Conv2d_call (Conv2d_new cin cout 3 1 (Pad 1)) (swish n1))
               = [b; cout; h; w]).
  { apply (Conv2d_same L HL); [exact Hh|exact Hw|]. now rewrite (shape_swish L HL). }
  destruct (Normalize_call_image L HL 32 cout b h w ltac:(lia) Hcout Hmout Hb Hh Hw _ H1)
    as (n2 & Hn2 & Hs2).
  exists n1, n2. split; [exact Hn1|]. split; [exact Hn2|]. cbv zeta.
  assert (H2 : shape (Conv2d_call (Conv2d_new cout cout 3 1 (Pad 1)) (swish n2))
               = [b; cout; h; w]).
  { apply (Conv2d_same L HL); [exact Hh|exact Hw|]. now rewrite (shape_swish L HL). }
  assert (H3 : shape (if cin =? cout then x
                      else Conv2d_call (Conv2d_new cin cout 1 1 (Pad 0)) x)
               = [b; cout; h; w]).
  { destruct (Z.eqb_spec cin cout) as [<-|Hne]; [exact Hx|].
    now apply (Conv2d_pointwise L HL). }
  split; [exact H2|]. split; [exact H3|]. split.
  - unfold ResnetBlock_call. cbn [norm1 conv1 norm2 conv2 nin_shortcut ResnetBlock_init].
    rewrite Hn1. cbn [mbind option_bind]. rewrite Hn2. cbn [mbind option_bind].
    destruct (cin =? cout); reflexivity.
  - apply (shape_add L HL). rewrite H2, H3. apply broadcast_same.
Qed.

Lemma ResnetBlock_call_changes_channels_witness :
  Contract Shapes /\ 0 < 64 /\ 64 mod 32 = 0 /\ 0 < 128 /\ 128 mod 32 = 0 /\
  0 < 2 /\ 0 < 5 /\ 0 < 7 /\ @shape Shapes [2; 64; 5; 7] = [2; 64; 5; 7] /\
  exists y, ResnetBlock_call Shapes (ResnetBlock_init Shapes 64 128) [2; 64; 5; 7] = Some y /\
            @shape Shapes y = [2; 128; 5; 7].
Proof.
  split; [exact Shapes_Contract|].
  do 8 (split; [reflexivity|]).
  destruct (ResnetBlock_call_changes_channels Shapes Shapes_Contract 64 128 2 5 7
              [2; 64; 5; 7] eq_refl eq_refl eq_refl eq_refl eq_refl eq_refl eq_refl
              eq_refl) as (n1 & n2 & _ & _ & H).
  cbv zeta in H. destruct H as (_ & _ & Hcall & Hshape).
  eexists. split; [exact Hcall|exact Hshape].
Defined.

(** X11.  [AttnBlock.__call__], on a batch of images whose number of
    channels is a multiple of 32: [q], [k] and [v] are flattened to
    [(b, c, h*w)], [q] turned to [(b, h*w, c)]; the attention weights
    [softmax(q @ k * c**(-0.5))] have the shape [(b, h*w, h*w)]; the values
    attended to, [v @ w_] with [w_] turned, are put back as [(b, c, h, w)];
    and the result [x + proj_out(h_)] has the shape of the input. *)
Theorem AttnBlock_call_keeps_shape (L : TensorLib) (HL : Contract L)
    (c b h w : Z) (x : tensor L) :
  0 < c -> c mod 32 = 0 -> 0 < b -> 0 < h -> 0 < w ->
  shape x = [b; c; h; w] ->
  exists n : tensor L,
    let self := AttnBlock_init L c in
    Normalize_call L (norm L self) x = Some n /\
    let q := permute (reshape (Conv2d_call (attn_q L self) n) [b; c; h * w])
               [0; 2; 1]%nat in
    let k := reshape (Conv2d_call (attn_k L self) n) [b; c; h * w] in
    let v := reshape (Conv2d_call (attn_v L self) n) [b; c; h * w] in
    let w_ := softmax (mul_rsqrt (matmul q k) c) in
    let h_ := reshape (matmul v (permute w_ [0; 2; 1]%nat)) [b; c; h; w] in
    shape q = [b; h * w; c] /\
    shape k = [b; c; h * w] /\
    shape v = [b; c; h * w] /\
    shape w_ = [b; h * w; h * w] /\
    shape h_ = [b; c; h; w] /\
    AttnBlock_call L self x = Some (add x (Conv2d_call (proj_out L self) h_)) /\
    shape (add x (Conv2d_call (proj_out L self) h_)) = [b; c; h; w].
Proof.
  intros Hc Hmod Hb Hh Hw Hx.
  destruct (Normalize_call_image L HL 32 c b h w ltac:(lia) Hc Hmod Hb Hh Hw x Hx)
    as (n & Hn & Hsn).
  exists n. cbv zeta. cbn [norm attn_q attn_k attn_v proj_out AttnBlock_init].
  split; [exact Hn|].
  pose proof (Conv2d_pointwise L HL c c b h w n Hh Hw Hsn) as Hconv.
  assert (Hflat : shape (reshape (Conv2d_call (Conv2d_new c c 1 1 (Pad 0)) n)
                           [b; c; h * w]) = [b; c; h * w]).
  { apply (reshape_to L HL _ [b; c; h; w] _ Hconv); [positive_shape|simpl; lia]. }
  assert (Hq : shape (permute (reshape (Conv2d_call (Conv2d_new c c 1 1 (Pad 0)) n)
                                 [b; c; h * w]) [0; 2; 1]%nat) = [b; h * w; c])
    by (now apply (permute_021 L HL)).
  assert (Hw_ : shape (softmax (mul_rsqrt
                   (matmul (permute (reshape (Conv2d_call (Conv2d_new c c 1 1 (Pad 0)) n)
                                       [b; c; h * w]) [0; 2; 1]%nat)
                           (reshape (Conv2d_call (Conv2d_new c c 1 1 (Pad 0)) n)
                              [b; c; h * w])) c)) = [b; h * w; h * w]).
  { rewrite (shape_softmax L HL), (shape_mul_rsqrt L HL).
    exact (matmul_batch L HL _ _ b (h * w) c (h * w) Hq Hflat). }
  assert (Hh_ : shape (reshape
                   (matmul (reshape (Conv2d_call (Conv2d_new c c 1 1 (Pad 0)) n)
                              [b; c; h * w])
                      (permute (softmax (mul_rsqrt
                         (matmul (permute (reshape (Conv2d_call (Conv2d_new c c 1 1 (Pad 0)) n)
                                             [b; c; h * w]) [0; 2; 1]%nat)
                                 (reshape (Conv2d_call (Conv2d_new c c 1 1 (Pad 0)) n)
                                    [b; c; h * w])) c)) [0; 2; 1]%nat))
                   [b; c; h; w]) = [b; c; h; w]).
  { apply (reshape_to L HL _ [b; c; h * w]); [|positive_shape|simpl; lia].
    apply (matmul_batch L HL _ _ b c (h * w) (h * w) Hflat).
    now apply (permute_021 L HL). }
  split; [exact Hq|]. split; [exact Hflat|]. split; [exact Hflat|].
  split; [exact Hw_|]. split; [exact Hh_|]. split.
  - unfold AttnBlock_call. cbn [norm attn_q attn_k attn_v proj_out AttnBlock_init].
    rewrite Hn. cbn [mbind option_bind]. rewrite Hconv. reflexivity.
  - apply (shape_add L HL). rewrite Hx.
    rewrite (Conv2d_pointwise L HL c c b h w _ Hh Hw Hh_). apply broadcast_same.
Qed.

Lemma AttnBlock_call_keeps_shape_witness :
  Contract Shapes /\ 0 < 64 /\ 64 mod 32 = 0 /\ 0 < 2 /\ 0 < 5 /\ 0 < 7 /\
  @shape Shapes [2; 64; 5; 7] = [2; 64; 5; 7] /\
  exists y, AttnBlock_call Shapes (AttnBlock_init Shapes 64) [2; 64; 5; 7] = Some y /\
            @shape Shapes y = [2; 64; 5; 7].
Proof.
  split; [exact Shapes_Contract|].
  do 6 (split; [reflexivity|]).
  destruct (AttnBlock_call_keeps_shape Shapes Shapes_Contract 64 2 5 7 [2; 64; 5; 7]
              eq_refl eq_refl eq_refl eq_refl eq_refl eq_refl) as (n & H).
  cbv zeta in H. destruct H as (_ & _ & _ & _ & _ & _ & Hcall & Hshape).
  eexists. split; [exact Hcall|exact Hshape].
Defined.

(** X12.  [Decoder()] takes a latent of shape [(b, 4, h, w)] to an image
    of shape [(b, 3, 8*h, 8*w)]: [Mid] keeps the shape and three of the
    four stages of [self.up], run from the last to the first, double the
    height and the width. *)
Theorem Decoder_call_shape (L : TensorLib) (HL : Contract L) (b h w : Z) :
  0 < b -> 0 < h -> 0 < w ->
  maps_shape (Decoder_call L (Decoder_init L)) [b; 4; h; w] [b; 3; 8 * h; 8 * w].
Proof. exact (Decoder_call_image L HL b h w). Qed.

Lemma Decoder_call_shape_witness :
  Contract Shapes /\ 0 < 1 /\ 0 < 64 /\ 0 < 64 /\
  exists y, Decoder_call Shapes (Decoder_init Shapes) [1; 4; 64; 64] = Some y /\
            @shape Shapes y = [1; 3; 8 * 64; 8 * 64].
Proof.
  split; [exact Shapes_Contract|].
  do 3 (split; [reflexivity|]).
  exact (Decoder_call_shape Shapes Shapes_Contract 1 64 64 eq_refl eq_refl eq_refl
           [1; 4; 64; 64] eq_refl).
Defined.

(** X13.  [Encoder()] takes an image of shape [(b, 3, h, w)] with [h] and
    [w] at least 8 to a tensor of shape [(b, 8, h // 8, w // 8)]: three of
    the four stages of [self.down] halve the height and the width,
    rounding down. *)
Theorem Encoder_call_shape (L : TensorLib) (HL : Contract L) (b h w : Z) :
  0 < b -> 8 <= h -> 8 <= w ->
  maps_shape (Encoder_call L (Encoder_init L)) [b; 3; h; w] [b; 8; h / 8; w / 8].
Proof. exact (Encoder_call_image L HL b h w). Qed.

Lemma Encoder_call_shape_witness :
  Contract Shapes /\ 0 < 1 /\ 8 <= 512 /\ 8 <= 500 /\
  exists y, Encoder_call Shapes (Encoder_init Shapes) [1; 3; 512; 500] = Some y /\
            @shape Shapes y = [1; 8; 512 / 8; 500 / 8].
Proof.
  split; [exact Shapes_Contract|]. split; [reflexivity|].
  split; [discriminate|]. split; [discriminate|].
  exact (Encoder_call_shape Shapes Shapes_Contract 1 512 500
           eq_refl ltac:(discriminate) ltac:(discriminate) [1; 3; 512; 500] eq_refl).
Defined.

(** X14.  [AutoencoderKL()] on an image of shape [(b, 3, h, w)] with [h]
    and [w] at least 8: the encoder gives a tensor of 8 channels, of which
    the first 4 (the slice [0:4] after [quant_conv]) go through
    [post_quant_conv] to the decoder, and the result is an image whose
    height and width are those of the input rounded down to a multiple of
    8. *)
Theorem AutoencoderKL_call_shape (L : TensorLib) (HL : Contract L) (b h w : Z)
    (x : tensor L) :
  0 < b -> 8 <= h -> 8 <= w ->
  shape x = [b; 3; h; w] ->
  exists latent y : tensor L,
    let self := AutoencoderKL_init L in
    Encoder_call L (encoder L self) x = Some latent /\
    shape latent = [b; 8; h / 8; w / 8] /\
    let means := slice_channels (Conv2d_call (quant_conv L self) latent) 0 4 in
    shape means = [b; 4; h / 8; w / 8] /\
    AutoencoderKL_call L self x =
      Decoder_call L (decoder L self) (Conv2d_call (post_quant_conv L self) means) /\
    AutoencoderKL_call L self x = Some y /\
    shape y = [b; 3; h - h mod 8; w - w mod 8].
Proof.
  intros Hb Hh Hw Hx.
  destruct (Encoder_call_image L HL b h w Hb Hh Hw x Hx) as (latent & Hlat & Hl1).
  assert (Hh8 : 0 < h / 8) by zdiv. assert (Hw8 : 0 < w / 8) by zdiv.
  pose proof (Conv2d_pointwise L HL 8 8 b (h / 8) (w / 8) latent Hh8 Hw8 Hl1) as Hl2.
  pose proof (shape_slice_channels L HL _ b 8 (h / 8) (w / 8) 0 4 Hl2
                ltac:(lia) ltac:(lia) ltac:(lia)) as Hl3.
  change (4 - 0) with 4 in Hl3.
  pose proof (Conv2d_pointwise L HL 4 4 b (h / 8) (w / 8) _ Hh8 Hw8 Hl3) as Hl4.
  destruct (Decoder_call_image L HL b (h / 8) (w / 8) Hb Hh8 Hw8 _ Hl4) as (y & Hdec & Hy).
  exists latent, y. cbv zeta.
  cbn [encoder decoder quant_conv post_quant_conv AutoencoderKL_init].
  assert (Hcall : AutoencoderKL_call L (AutoencoderKL_init L) x =
            Decoder_call L (Decoder_init L)
              (Conv2d_call (Conv2d_new 4 4 1 1 (Pad 0))
                 (slice_channels (Conv2d_call (Conv2d_new 8 8 1 1 (Pad 0)) latent) 0 4))).
  { unfold AutoencoderKL_call.
    cbn [encoder decoder quant_conv post_quant_conv AutoencoderKL_init].
    rewrite Hlat. reflexivity. }
  split; [exact Hlat|]. split; [exact Hl1|]. split; [exact Hl3|].
  split; [exact Hcall|]. split; [now rewrite Hcall|].
  rewrite Hy. do 2 f_equal. f_equal; [zdiv|f_equal; zdiv].
Qed.

Lemma AutoencoderKL_call_shape_witness :
  Contract Shapes /\ 0 < 1 /\ 8 <= 512 /\ 8 <= 500 /\
  @shape Shapes [1; 3; 512; 500] = [1; 3; 512; 500] /\
  exists y, AutoencoderKL_call Shapes (AutoencoderKL_init Shapes) [1; 3; 512; 500] = Some y /\
            @shape Shapes y = [1; 3; 512 - 512 mod 8; 500 - 500 mod 8].
Proof.
  split; [exact Shapes_Contract|]. split; [reflexivity|].
  split; [discriminate|]. split; [discriminate|]. split; [reflexivity|].
  destruct (AutoencoderKL_call_shape Shapes Shapes_Contract 1 512 500 [1; 3; 512; 500]
              eq_refl ltac:(discriminate) ltac:(discriminate) eq_refl)
    as (latent & y & H).
  cbv zeta in H. destruct H as (_ & _ & _ & _ & Hcall & Hshape).
  exists y. split; [exact Hcall|exact Hshape].
Defined.

(** X15.  [Upsample] doubles the height and the width of a batch of
    images, [Downsample] halves them, rounding down, and [Downsample]
    after [Upsample] gives back the shape. *)
Theorem Downsample_after_Upsample (L : TensorLib) (HL : Contract L) (c b h w : Z) :
  0 < c -> 0 < b -> 0 < h -> 0 < w ->
  maps_shape (Upsample_call L (Upsample_init L c)) [b; c; h; w] [b; c; h * 2; w * 2] /\
  maps_shape (Downsample_call L (Downsample_init L c))
    [b; c; h * 2; w * 2] [b; c; h; w] /\
  maps_shape (Downsample_call L (Downsample_init L c))
    [b; c; h * 2 + 1; w * 2 + 1] [b; c; h; w] /\
  maps_shape
    (fun x => Upsample_call L (Upsample_init L c) x ≫=
              Downsample_call L (Downsample_init L c))
    [b; c; h; w] [b; c; h; w].
Proof.
  intros Hc Hb Hh Hw.
  assert (Hup := Upsample_call_image L HL c b h w Hc Hb Hh Hw).
  assert (Hdown : maps_shape (Downsample_call L (Downsample_init L c))
                    [b; c; h * 2; w * 2] [b; c; h; w]).
  { intros x Hx.
    destruct (Downsample_call_image L HL c b (h * 2) (w * 2)
                ltac:(lia) ltac:(lia) x Hx) as (y & Hy & Hs).
    exists y. split; [exact Hy|]. now rewrite Hs, !Z.div_mul by lia. }
  split; [exact Hup|]. split; [exact Hdown|]. split.
  - intros x Hx.
    destruct (Downsample_call_image L HL c b (h * 2 + 1) (w * 2 + 1)
                ltac:(lia) ltac:(lia) x Hx) as (y & Hy & Hs).
    exists y. split; [exact Hy|]. rewrite Hs.
    do 2 f_equal. f_equal; [zdiv|f_equal; zdiv].
  - now apply (maps_shape_bind L _ _ _ [b; c; h * 2; w * 2]).
Qed.

Lemma Downsample_after_Upsample_witness :
  Contract Shapes /\ 0 < 320 /\ 0 < 1 /\ 0 < 32 /\ 0 < 24 /\
  exists y,
    Upsample_call Shapes (Upsample_init Shapes 320) [1; 320; 32; 24] ≫=
    Downsample_call Shapes (Downsample_init Shapes 320) = Some y /\
    @shape Shapes y = [1; 320; 32; 24].
Proof.
  split; [exact Shapes_Contract|].
  do 4 (split; [reflexivity|]).
  exact (proj2 (proj2 (proj2
           (Downsample_after_Upsample Shapes Shapes_Contract 320 1 32 24
              eq_refl eq_refl eq_refl eq_refl))) [1; 320; 32; 24] eq_refl).
Defined.

(** X16.  [CLIPAttention.__call__] on a tensor of shape
    [(bsz, tgt_len, 768)]: queries (scaled), keys and values are split
    into 12 heads of 64 numbers and laid out as [(bsz*12, tgt_len, 64)];
    the attention weights [softmax(q @ k.permute(0,2,1))] have the shape
    [(bsz*12, tgt_len, tgt_len)]; the heads of [attn_weights @ v] are put
    together again as [(bsz, tgt_len, 768)]; and the result, [out_proj] of
    that, has the shape of the input. *)
Theorem CLIPAttention_call_keeps_shape (L : TensorLib) (HL : Contract L) (b n : Z)
    (x : tensor L) :
  0 < b -> 0 < n ->
  shape x = [b; n; 768] ->
  let self := CLIPAttention_init L in
  let heads := fun (t : tensor L) (seq_len : Z) =>
    reshape (CLIPAttention_shape L self t seq_len b) [b * 12; -1; 64] in
  let q := heads (mul_rsqrt (Linear_call L (q_proj L self) x) 64) n in
  let k := heads (Linear_call L (k_proj L self) x) (-1) in
  let v := heads (Linear_call L (v_proj L self) x) (-1) in
  let attn_weights := softmax (matmul q (permute k [0; 2; 1]%nat)) in
  let attn_output :=
    reshape (permute (reshape (matmul attn_weights v) [b; 12; n; 64]) [0; 2; 1; 3]%nat)
      [b; n; 768] in
  shape q = [b * 12; n; 64] /\
  shape k = [b * 12; n; 64] /\
  shape v = [b * 12; n; 64] /\
  shape attn_weights = [b * 12; n; n] /\
  shape attn_output = [b; n; 768] /\
  CLIPAttention_call L self x = Some (Linear_call L (out_proj L self) attn_output) /\
  shape (Linear_call L (out_proj L self) attn_output) = [b; n; 768].
Proof.
  intros Hb Hn Hx self heads q k v attn_weights attn_output.
  pose proof (Linear_call_rows L HL 768 768 [b; n] x Hx) as Hproj. cbn [app] in Hproj.
  assert (Hheads : forall y : tensor L, shape y = [b; n; 768] ->
            shape (heads y (-1)) = [b * 12; n; 64]).
  { intros y Hy. unfold heads, CLIPAttention_shape, self.
    cbn [num_heads head_dim CLIPAttention_init].
    apply (reshape_infer_to L HL _ [b; 12; n; 64] [b * 12] [64] n);
      [|positive_shape|positive_shape|exact Hn|simpl; lia].
    apply (permute_0213 L HL).
    apply (reshape_infer_to L HL y [b; n; 768] [b] [12; 64] n Hy);
      [positive_shape|positive_shape|exact Hn|simpl; lia]. }
  assert (Hq : shape q = [b * 12; n; 64]).
  { unfold q, heads, CLIPAttention_shape, self.
    cbn [num_heads head_dim q_proj CLIPAttention_init].
    apply (reshape_infer_to L HL _ [b; 12; n; 64] [b * 12] [64] n);
      [|positive_shape|positive_shape|exact Hn|simpl; lia].
    apply (permute_0213 L HL).
    apply (reshape_to L HL _ [b; n; 768]); [|positive_shape|simpl; lia].
    now rewrite (shape_mul_rsqrt L HL). }
  assert (Hk : shape k = [b * 12; n; 64]) by (apply Hheads; exact Hproj).
  assert (Hv : shape v = [b * 12; n; 64]) by (apply Hheads; exact Hproj).
  assert (Hw : shape attn_weights = [b * 12; n; n]).
  { unfold attn_weights. rewrite (shape_softmax L HL).
    apply (matmul_batch L HL _ _ (b * 12) n 64 n Hq).
    now apply (permute_021 L HL). }
  assert (Ho : shape attn_output = [b; n; 768]).
  { unfold attn_output.
    apply (reshape_to L HL _ [b; n; 12; 64]); [|positive_shape|simpl; lia].
    apply (permute_0213 L HL).
    apply (reshape_to L HL _ [b * 12; n; 64]); [|positive_shape|simpl; lia].
    exact (matmul_batch L HL _ _ (b * 12) n n 64 Hw Hv). }
  split; [exact Hq|]. split; [exact Hk|]. split; [exact Hv|].
  split; [exact Hw|]. split; [exact Ho|]. split.
  - unfold CLIPAttention_call. rewrite Hx. reflexivity.
  - exact (Linear_call_rows L HL 768 768 [b; n] attn_output Ho).
Qed.

Lemma CLIPAttention_call_keeps_shape_witness :
  Contract Shapes /\ 0 < 1 /\ 0 < 3 /\ @shape Shapes [1; 3; 768] = [1; 3; 768] /\
  exists y, CLIPAttention_call Shapes (CLIPAttention_init Shapes) [1; 3; 768] = Some y /\
            @shape Shapes y = [1; 3; 768].
Proof.
  split; [exact Shapes_Contract|].
  do 3 (split; [reflexivity|]).
  pose proof (CLIPAttention_call_keeps_shape Shapes Shapes_Contract 1 3 [1; 3; 768]
                eq_refl eq_refl eq_refl) as H.
  cbv zeta in H. destruct H as (_ & _ & _ & _ & _ & Hcall & Hshape).
  eexists. split; [exact Hcall|exact Hshape].
Defined.

(** X17.  [CLIPEncoder.__call__] returns a tensor of the shape
    [(b, n, 768)] of its input: each of the 12 layers keeps the shape,
    its [CLIPMLP] going through 3072 numbers per row and back. *)
Theorem CLIPEncoder_call_keeps_shape (L : TensorLib) (HL : Contract L) (b n : Z) :
  0 < b -> 0 < n ->
  (forall x : tensor L, shape x = [b; n; 768] ->
     shape (Linear_call L (fc1 L (CLIPMLP_init L)) x) = [b; n; 3072] /\
     shape (CLIPMLP_call L (CLIPMLP_init L) x) = [b; n; 768]) /\
  maps_shape (CLIPEncoderLayer_call L (CLIPEncoderLayer_init L))
    [b; n; 768] [b; n; 768] /\
  maps_shape (CLIPEncoder_call L (CLIPEncoder_init L)) [b; n; 768] [b; n; 768].
Proof.
  intros Hb Hn. split; [|split].
  - intros x Hx. split.
    + exact (Linear_call_rows L HL 768 3072 [b; n] x Hx).
    + now apply CLIPMLP_call_rows.
  - now apply CLIPEncoderLayer_call_rows.
  - now apply CLIPEncoder_call_rows.
Qed.

Lemma CLIPEncoder_call_keeps_shape_witness :
  Contract Shapes /\ 0 < 1 /\ 0 < 3 /\
  exists y, CLIPEncoder_call Shapes (CLIPEncoder_init Shapes) [1; 3; 768] = Some y /\
            @shape Shapes y = [1; 3; 768].
Proof.
  split; [exact Shapes_Contract|].
  do 2 (split; [reflexivity|]).
  exact (proj2 (proj2
           (CLIPEncoder_call_keeps_shape Shapes Shapes_Contract 1 3 eq_refl eq_refl))
           [1; 3; 768] eq_refl).
Defined.

(** X18.  [CLIPTextTransformer()] applied to a list of [n] token ids, [n]
    from 1 to 77 and every id in [-49408, 49408), returns a tensor of
    shape [(1, n, 768)]; on any other list that is not empty it raises. *)
Theorem CLIPTextTransformer_forward_shape (L : TensorLib) (HL : Contract L)
    (input_ids : list Z) :
  input_ids <> [] ->
  if forallb (index_ok vocabulary) input_ids &&
     (length input_ids <=? max_positions)%nat
  then exists y,
         CLIPTextTransformer_forward L (CLIPTextTransformer_init L) input_ids = Some y /\
         shape y = [1; Z.of_nat (length input_ids); 768]
  else CLIPTextTransformer_forward L (CLIPTextTransformer_init L) input_ids = None.
Proof.
  intros Hne.
  destruct (forallb (index_ok vocabulary) input_ids) eqn:Hids;
    [destruct (Nat.leb_spec (length input_ids) max_positions) as [Hlen|Hlen]|];
    cbn [andb]; unfold CLIPTextTransformer_forward.
  - destruct (CLIPTextEmbeddings_call_rows L HL input_ids Hne Hids Hlen)
      as (x & -> & Hx).
    assert (Hn : 0 < Z.of_nat (length input_ids)).
    { destruct input_ids; [congruence|]. cbn [length]. lia. }
    cbn [text_encoder final_layer_norm CLIPTextTransformer_init].
    destruct (CLIPEncoder_call_rows L HL 1 _ ltac:(lia) Hn x Hx) as (y & -> & Hy).
    cbn [mbind option_bind].
    apply (Normalize_call_rows L HL 1 768 1 [Z.of_nat (length input_ids); 768]
             [1; Z.of_nat (length input_ids)]); try (exact Hy).
    + lia.
    + positive_shape.
    + simpl. lia.
    + apply Z.mod_1_r.
    + reflexivity.
  - unfold CLIPTextEmbeddings_call.
    rewrite !one_hot_rows, range_index_ok, Hids.
    rewrite (proj2 (Nat.leb_gt _ _) Hlen). reflexivity.
  - unfold CLIPTextEmbeddings_call.
    rewrite (one_hot_rows vocabulary input_ids), Hids. reflexivity.
Qed.

Lemma CLIPTextTransformer_forward_shape_witness :
  Contract Shapes /\ [1; 2; 3] <> [] /\
  exists y,
    CLIPTextTransformer_forward Shapes (CLIPTextTransformer_init Shapes) [1; 2; 3] = Some y /\
    @shape Shapes y = [1; Z.of_nat (length [1; 2; 3]); 768].
Proof.
  assert (Hne : [1; 2; 3] <> @nil Z) by discriminate.
  assert (Hok : forallb (index_ok vocabulary) [1; 2; 3] &&
                (length [1%Z; 2%Z; 3%Z] <=? max_positions)%nat = true)
    by (vm_compute; reflexivity).
  split; [exact Shapes_Contract|]. split; [exact Hne|].
  pose proof (CLIPTextTransformer_forward_shape Shapes Shapes_Contract [1; 2; 3] Hne) as H.
  rewrite Hok in H. exact H.
Defined.
